(** * The extension keyring (KeyRing) of the Namada interface

    A shallow embedding of [KeyRing] (the keyring of the browser
    extension) together with the collaborators it calls, and the
    properties of its operations: password check and rotation, mnemonic
    import, account derivation, queries and deletion. *)

From Stdlib Require Import ZArith NArith Ascii String DecimalString Lia.
From stdpp Require Import base option list strings gmap.

Local Open Scope string_scope.

(** ** UUID version 5

    [getId] calls [v5] of the [uuid] package.  The package is modelled
    after RFC 4122: the SHA-1 digest of the namespace bytes followed by
    the bytes of the name, truncated to 16 bytes, stamped with version
    and variant, printed as 8-4-4-4-12 lower-case hex digits.
    32-bit words are [N] with the wrap-around written out. *)
Module UUID.

Local Open Scope N_scope.

Definition w32 (x : N) : N := x mod 4294967296.

Definition add32 (x y : N) : N := w32 (x + y).

Definition rotl (k x : N) : N :=
  w32 (N.lor (N.shiftl x k) (N.shiftr x (32 - k))).

Definition not32 (x : N) : N := N.lxor x 4294967295.

Definition bytes_of_string (s : string) : list N :=
  map N_of_ascii (list_ascii_of_string s).

(* big-endian rendering of [x] on [k] bytes *)
Fixpoint be_bytes (k : nat) (x : N) : list N :=
  match k with
  | O => []
  | S k' => N.shiftr x (8 * N.of_nat k') mod 256 :: be_bytes k' x
  end.

Definition be_word (bs : list N) : N :=
  fold_left (fun acc b => acc * 256 + b) bs 0.

Definition pad (msg : list N) : list N :=
  let len := N.of_nat (length msg) in
  let zeros := N.to_nat ((119 - len mod 64) mod 64) in
  msg ++ 128 :: repeat 0 zeros ++ be_bytes 8 (8 * len).

Fixpoint chunks (fuel : nat) (k : nat) (bs : list N) : list (list N) :=
  match fuel, bs with
  | O, _ | _, [] => []
  | S fuel', _ => take k bs :: chunks fuel' k (drop k bs)
  end.

(* message schedule, most recent word first *)
Fixpoint schedule (n : nat) (rw : list N) : list N :=
  match n with
  | O => rw
  | S n' =>
      let x := fun i => nth i rw 0 in
      schedule n'
        (rotl 1 (N.lxor (N.lxor (x 2%nat) (x 7%nat))
                        (N.lxor (x 13%nat) (x 15%nat))) :: rw)
  end.

Definition round_f (i : nat) (b c d : N) : N :=
  if (i <? 20)%nat then N.lor (N.land b c) (N.land (not32 b) d)
  else if (i <? 40)%nat then N.lxor (N.lxor b c) d
  else if (i <? 60)%nat then
    N.lor (N.lor (N.land b c) (N.land b d)) (N.land c d)
  else N.lxor (N.lxor b c) d.

Definition round_k (i : nat) : N :=
  if (i <? 20)%nat then 1518500249
  else if (i <? 40)%nat then 1859775393
  else if (i <? 60)%nat then 2400959708
  else 3395469782.

Record regs := Regs { ra : N; rb : N; rc : N; rd : N; re : N }.

Definition round (i : nat) (w : N) (r : regs) : regs :=
  let t :=
    add32 (add32 (add32 (add32 (rotl 5 (ra r))
                               (round_f i (rb r) (rc r) (rd r)))
                        (re r))
                 (round_k i)) w in
  Regs t (ra r) (rotl 30 (rb r)) (rc r) (rd r).

Fixpoint rounds (i : nat) (ws : list N) (r : regs) : regs :=
  match ws with
  | [] => r
  | w :: ws' => rounds (S i) ws' (round i w r)
  end.

Definition compress (h : regs) (chunk : list N) : regs :=
  let w16 := map be_word (chunks 16 4 chunk) in
  let ws := rev (schedule 64 (rev w16)) in
  let r := rounds 0 ws h in
  Regs (add32 (ra h) (ra r)) (add32 (rb h) (rb r)) (add32 (rc h) (rc r))
       (add32 (rd h) (rd r)) (add32 (re h) (re r)).

Definition sha1_init : regs :=
  Regs 1732584193 4023233417 2562383102 271733878 3285377520.

Definition sha1 (msg : list N) : list N :=
  let p := pad msg in
  let h := fold_left compress (chunks (length p) 64 p) sha1_init in
  be_bytes 4 (ra h) ++ be_bytes 4 (rb h) ++ be_bytes 4 (rc h)
    ++ be_bytes 4 (rd h) ++ be_bytes 4 (re h).

Definition hex_digit (n : N) : ascii :=
  nth (N.to_nat n) (list_ascii_of_string "0123456789abcdef") "0"%char.

Definition hex_byte (b : N) : string :=
  String (hex_digit (b / 16)) (String (hex_digit (b mod 16)) EmptyString).

Definition hex (bs : list N) : string :=
  String.concat "" (map hex_byte bs).

Definition hex_value (c : ascii) : option N :=
  let n := N_of_ascii c in
  if (48 <=? n) && (n <=? 57) then Some (n - 48)
  else if (97 <=? n) && (n <=? 102) then Some (n - 87)
  else if (65 <=? n) && (n <=? 70) then Some (n - 55)
  else None.

(* the hex digits of a printed uuid, read pairwise as bytes *)
Fixpoint pair_up (ds : list N) : list N :=
  match ds with
  | hi :: lo :: ds' => (16 * hi + lo) :: pair_up ds'
  | _ => []
  end.

Definition parse (s : string) : list N :=
  pair_up (omap hex_value (list_ascii_of_string s)).

Definition stamp (version : N) (bs : list N) : list N :=
  let bs := take 16 bs in
  let b6 := N.lor (N.land (nth 6 bs 0) 15) version in
  let b8 := N.lor (N.land (nth 8 bs 0) 63) 128 in
  <[8%nat := b8]> (<[6%nat := b6]> bs).

Definition stringify (bs : list N) : string :=
  hex (take 4 bs) +:+ "-" +:+ hex (take 2 (drop 4 bs)) +:+ "-"
    +:+ hex (take 2 (drop 6 bs)) +:+ "-" +:+ hex (take 2 (drop 8 bs))
    +:+ "-" +:+ hex (drop 10 bs).

Definition v5 (name namespace : string) : string :=
  stringify (stamp 80 (sha1 (parse namespace ++ bytes_of_string name))).

End UUID.


(** ** Values of the extension's data model *)

(** Modelled from the spec: [AccountType] of the types package, one of
    Mnemonic, PrivateKey, ShieldedKeys. *)
Module AccountType.
Inductive t := Mnemonic | PrivateKey | ShieldedKeys.
#[global] Instance eq_dec : EqDecision t.
Proof. solve_decision. Defined.
End AccountType.

(** Modelled from the spec: [KeyRingStatus] of the keyring's types,
    the states Empty, Locked and Unlocked. *)
Inductive KeyRingStatus := Empty | Locked | Unlocked.

(** Modelled from the spec: the errors [resetPassword] and
    [deleteAccount] return as values, with the members the keyring
    names. *)
Module ResetPasswordError.
Inductive t := BadPassword | KeyStoreError.
End ResetPasswordError.

Module DeleteAccountError.
Inductive t := BadPassword.
End DeleteAccountError.

(** Modelled from the spec: [Result] of the utils package, a success
    value ([Result.ok]) or an error value ([Result.err]). *)
Module Result.
Inductive t (T E : Type) := ok (value : T) | err (error : E).
Arguments ok {T E} value.
Arguments err {T E} error.
End Result.

(** Modelled from the spec: [Bip44Path] of the types package, account,
    change and an optional index. Numbers are naturals; [dec] prints
    them in decimal, as a template literal or [join] prints an integer
    below 10^21. *)
Module Bip44Path.
Record t := { account : N; change : N; index : option N }.
End Bip44Path.

Definition dec (n : N) : string := NilEmpty.string_of_uint (N.to_uint n).

(** What a thrown value is: an [Error] built by the keyring with its
    message, or an exception raised inside a collaborator. *)
Inductive error := Error (msg : string) | Foreign.

Inductive outcome (A : Type) := Return (a : A) | Throw (e : error).
Arguments Return {A} a.
Arguments Throw {A} e.

(** Serialized keys of a shielded account, with their encodings:
    [derive_to_serialized_keys] followed by [ExtendedSpendingKey.encode],
    [ExtendedViewingKey.encode] and [PaymentAddress.encode]. *)
Module Zip32.
Record t := {
  xsk : list N;
  spendingKey : string;
  viewingKey : string;
  payment_address : string
}.
End Zip32.

(** The collaborators of the keyring: the wasm crypto and shared
    packages, the chain registry and the chain query. A function that
    can throw returns [option]. *)
Class Collaborators := {
  Blob : Type;
  Seed : Type;
  Words : Type;
  Sdk : Type;
  (* authenticated encryption of a text under a password *)
  seal : string -> string -> Blob;
  unseal : Blob -> string -> option string;
  (* Mnemonic.from_phrase and to_seed *)
  from_phrase : string -> option Words;
  to_seed : Words -> Seed;
  (* chains[chainId].bip44.coinType *)
  coinType : string -> option N;
  (* new HDWallet(seed).derive(path).private().to_hex() *)
  hd_derive : Seed -> string -> option string;
  (* new Address(sk).implicit() *)
  implicit : string -> string;
  (* new ShieldedHDWallet(seed).derive_to_serialized_keys(index) *)
  zip32_derive : Seed -> N -> option Zip32.t;
  (* the transaction builder *)
  add_key : Sdk -> string -> string -> string -> Sdk;
  add_spending_key : Sdk -> list N -> string -> string -> Sdk;
  clear_storage : Sdk -> Sdk;
  encode : Sdk -> string;
  decode : Sdk -> string -> Sdk;
  (* the chain query, and Number.parseInt (None is NaN) *)
  query_balance : string -> list (string * string);
  parseInt : string -> option Z
}.

(** Modelled from the spec: [KeyStore], a record of the key store,
    with the fields of an account record; [parentId] is absent for a
    parent. *)
Module KeyStore.
Record t `{Collaborators} := {
  id : string;
  parentId : option string;
  alias : string;
  chainId : string;
  path : Bip44Path.t;
  type : AccountType.t;
  address : string;
  owner : string;
  crypto : Blob
}.
End KeyStore.

(** [DerivedAccount], with the fields [deriveAccount] and
    [queryAccounts] return. *)
Module DerivedAccount.
Record t := {
  id : string;
  address : string;
  alias : string;
  chainId : string;
  parentId : option string;
  path : Bip44Path.t;
  type : AccountType.t
}.
End DerivedAccount.

(** The argument of [Crypto.encrypt], with the fields the keyring
    passes. *)
Module CryptoArgs.
Record t := {
  alias : string;
  address : string;
  owner : string;
  chainId : string;
  id : string;
  parentId : option string;
  password : string;
  path : Bip44Path.t;
  text : string;
  type : AccountType.t
}.
End CryptoArgs.

(** ** Crypto *)
Module Crypto.
Section Defs.
Context `{Collaborators}.

(** Modelled from the spec: [Crypto.encrypt] of the keyring's crypto
    module is not among the sources. The plain fields are copied and
    the text is sealed under the password into [crypto]. *)
Definition encrypt (params : CryptoArgs.t) : KeyStore.t :=
  {| KeyStore.id := CryptoArgs.id params;
     KeyStore.parentId := CryptoArgs.parentId params;
     KeyStore.alias := CryptoArgs.alias params;
     KeyStore.chainId := CryptoArgs.chainId params;
     KeyStore.path := CryptoArgs.path params;
     KeyStore.type := CryptoArgs.type params;
     KeyStore.address := CryptoArgs.address params;
     KeyStore.owner := CryptoArgs.owner params;
     KeyStore.crypto :=
       seal (CryptoArgs.password params) (CryptoArgs.text params) |}.

(** Modelled from the spec: [Crypto.decrypt] opens the blob of the
    record with the password; [None] when it throws. *)
Definition decrypt (store : KeyStore.t) (password : string)
  : option string :=
  unseal (KeyStore.crypto store) password.
End Defs.
End Crypto.

(** ** Store *)

(** A value a record field is compared with by [===]. *)
Inductive Value :=
| VUndefined
| VString (s : string)
| VType (t : AccountType.t).

#[global] Instance Value_eq_dec : EqDecision Value.
Proof. solve_decision. Defined.

Definition VOption (o : option string) : Value :=
  match o with Some s => VString s | None => VUndefined end.

(** The keys the keyring looks records up by. *)
Module Key.
Inductive t := id | parentId | address | type.
End Key.

Module Store.
Section Defs.
Context `{Collaborators}.

(** [record[key]] *)
Definition field (key : Key.t) (record : KeyStore.t) : Value :=
  match key with
  | Key.id => VString (KeyStore.id record)
  | Key.parentId => VOption (KeyStore.parentId record)
  | Key.address => VString (KeyStore.address record)
  | Key.type => VType (KeyStore.type record)
  end.

(** Modelled from the spec: [append] of the [Store] class of the
    storage package, which is not among the sources. The store keeps
    the ordered list of records; a new record goes last. *)
Definition append (state : KeyStore.t) (stored : list KeyStore.t)
  : list KeyStore.t :=
  stored ++ [state].

(** Modelled from the spec: [update] of [Store] puts the new state in
    the place of the record with the id. *)
Definition update (id : string) (state : KeyStore.t)
    (stored : list KeyStore.t) : list KeyStore.t :=
  map (fun record =>
         if decide (KeyStore.id record = id) then state else record)
      stored.

(** Modelled from the spec: [remove] of [Store] drops the record with
    the id. *)
Definition remove (id : string) (stored : list KeyStore.t)
  : list KeyStore.t :=
  filter (fun record => KeyStore.id record <> id) stored.

(** Modelled from the spec: [getRecord] of [Store], the first record
    whose field is the value, if any. *)
Definition getRecord (key : Key.t) (value : Value)
    (stored : list KeyStore.t) : option KeyStore.t :=
  find (fun record => bool_decide (field key record = value)) stored.

(** Modelled from the spec: [getRecords] of [Store], the records
    whose field is the value, in order. *)
Definition getRecords (key : Key.t) (value : Value)
    (stored : list KeyStore.t) : list KeyStore.t :=
  filter (fun record => field key record = value) stored.
End Defs.
End Store.

(** ** Identifiers *)

Definition UUID_NAMESPACE : string := "9bfceade-37fe-11ed-acc0-a3da3461b38c".

(** An argument of [getId]: a number or a string, printed by the
    template literal. *)
Inductive Arg := ArgNumber (n : N) | ArgString (s : string).

Definition show (arg : Arg) : string :=
  match arg with
  | ArgNumber n => dec n
  | ArgString s => s
  end.

Definition getId (name : string) (args : list Arg) : string :=
  let uuidName :=
    fold_left (fun uuidName arg => uuidName +:+ "::" +:+ show arg) args name in
  UUID.v5 uuidName UUID_NAMESPACE.

Module DerivedAccountInfo.
Record t := { address : string; id : string; text : string }.
End DerivedAccountInfo.

Module DerivedShieldedAccountInfo.
Record t := {
  address : string;
  id : string;
  spendingKey : list N;
  viewingKey : string;
  text : string
}.
End DerivedShieldedAccountInfo.

(** [JSON.stringify] of an object with two string members. The values
    are bech32m strings, in which nothing is escaped. *)
Definition quote : string := String "034"%char EmptyString.

Definition stringify2 (k1 v1 k2 v2 : string) : string :=
  "{" +:+ quote +:+ k1 +:+ quote +:+ ":" +:+ quote +:+ v1 +:+ quote +:+ ","
      +:+ quote +:+ k2 +:+ quote +:+ ":" +:+ quote +:+ v2 +:+ quote +:+ "}".

(** ** The keyring *)
Module KeyRing.
Section Defs.
Context `{Collaborators}.

(** What a method that was started without [await] has left to do.
    [addSecretKey], [addSpendingKey] and [append] of the key store are
    asynchronous and await inside; started without [await], such a
    method runs to its first [await] and goes on later, while its
    caller continues. [deriveAccount] starts them this way:
    [addSecretKey] or [addSpendingKey] has then given the key to the
    transaction builder and read the snapshots, and has still to write
    the new snapshot; [append] has still to put the record into the
    key store. *)
Inductive Deferred :=
| Snapshot (store : gmap string string) (activeAccountId : string)
| Append (state : KeyStore.t).

(** The fields of the class and the stores behind it: the key store
    (under "key-store"), the active parent id (under
    "parent-account-id"), the transaction builder's snapshots per
    parent (under "sdk-store") and the transaction builder. Reads and
    writes of the stores are taken in the order in which they are
    issued; what the methods started without [await] have left to do
    waits in [pending], oldest first. *)
Record t := {
  _keyStore : list KeyStore.t;
  _password : option string;
  _status : KeyRingStatus;
  activeAccountStore : option string;
  sdkStore : option (gmap string string);
  sdk : Sdk;
  chainId : string;
  pending : list Deferred
}.

Definition with_keyStore (f : list KeyStore.t -> list KeyStore.t)
    (k : t) : t :=
  {| _keyStore := f (_keyStore k); _password := _password k;
     _status := _status k; activeAccountStore := activeAccountStore k;
     sdkStore := sdkStore k; sdk := sdk k; chainId := chainId k;
     pending := pending k |}.

Definition with_password (p : option string) (k : t) : t :=
  {| _keyStore := _keyStore k; _password := p;
     _status := _status k; activeAccountStore := activeAccountStore k;
     sdkStore := sdkStore k; sdk := sdk k; chainId := chainId k;
     pending := pending k |}.

Definition with_status (s : KeyRingStatus) (k : t) : t :=
  {| _keyStore := _keyStore k; _password := _password k;
     _status := s; activeAccountStore := activeAccountStore k;
     sdkStore := sdkStore k; sdk := sdk k; chainId := chainId k;
     pending := pending k |}.

Definition with_activeAccount (a : option string) (k : t) : t :=
  {| _keyStore := _keyStore k; _password := _password k;
     _status := _status k; activeAccountStore := a;
     sdkStore := sdkStore k; sdk := sdk k; chainId := chainId k;
     pending := pending k |}.

Definition with_sdkStore (s : option (gmap string string)) (k : t) : t :=
  {| _keyStore := _keyStore k; _password := _password k;
     _status := _status k; activeAccountStore := activeAccountStore k;
     sdkStore := s; sdk := sdk k; chainId := chainId k;
     pending := pending k |}.

Definition with_sdk (f : Sdk -> Sdk) (k : t) : t :=
  {| _keyStore := _keyStore k; _password := _password k;
     _status := _status k; activeAccountStore := activeAccountStore k;
     sdkStore := sdkStore k; sdk := f (sdk k); chainId := chainId k;
     pending := pending k |}.

Definition with_pending (f : list Deferred -> list Deferred) (k : t) : t :=
  {| _keyStore := _keyStore k; _password := _password k;
     _status := _status k; activeAccountStore := activeAccountStore k;
     sdkStore := sdkStore k; sdk := sdk k; chainId := chainId k;
     pending := f (pending k) |}.

(** A method: it runs on the keyring, returns or throws, and leaves
    the keyring as it is at that point. *)
Definition M (A : Type) : Type := t -> outcome A * t.

Definition ret {A} (a : A) : M A := fun k => (Return a, k).

Definition bind {A B} (m : M A) (f : A -> M B) : M B :=
  fun k =>
    match m k with
    | (Return a, k') => f a k'
    | (Throw e, k') => (Throw e, k')
    end.

Definition throw {A} (e : error) : M A := fun k => (Throw e, k).

Definition try_catch {A} (m : M A) (handler : error -> M A) : M A :=
  fun k =>
    match m k with
    | (Return a, k') => (Return a, k')
    | (Throw e, k') => handler e k'
    end.

Definition gets {A} (f : t -> A) : M A := fun k => (Return (f k), k).

Definition modify (f : t -> t) : M unit := fun k => (Return tt, f k).

Definition lift_opt {A} (o : option A) : M A :=
  match o with
  | Some a => ret a
  | None => throw Foreign
  end.

Notation "'let*' x ':=' m 'in' f" := (bind m (fun x => f))
  (at level 10, x name, m at level 100, f at level 200).
Notation "m ;;; f" := (bind m (fun _ => f))
  (at level 100, f at level 200, right associativity).

Definition isLocked : M bool :=
  gets (fun k => bool_decide (_password k = None)).

Definition status : M KeyRingStatus := gets _status.

Definition lock : M unit :=
  modify (with_status Locked) ;;;
  modify (with_password None).

Definition getActiveAccountId : M (option string) :=
  gets activeAccountStore.

Definition checkPassword (password : string) (accountId : option string)
  : M bool :=
  let* active := getActiveAccountId in
  let idToCheck :=
    match accountId with Some a => Some a | None => active end in
  let* mnemonic :=
    gets (fun k => Store.getRecord Key.id (VOption idToCheck)
                     (_keyStore k)) in
  match mnemonic with
  | Some mnemonic =>
      match Crypto.decrypt mnemonic password with
      | Some _ => ret true
      | None => ret false
      end
  | None => ret false
  end.

Definition unlock (password : string) : M unit :=
  let* ok := checkPassword password None in
  if ok then
    modify (with_password (Some password)) ;;;
    modify (with_status Unlocked)
  else ret tt.

Definition setActiveAccountId (parentId : string) : M unit :=
  modify (with_activeAccount (Some parentId)) ;;;
  let* sdkData := gets sdkStore in
  match sdkData with
  | Some sdkData =>
      modify (with_sdk
                (fun s => decode s (default "" (sdkData !! parentId))))
  | None => ret tt
  end.

(** [addSecretKey] up to its [await]: the key goes to the transaction
    builder and the snapshots are read. *)
Definition addSecretKey_start (secretKey password alias : string)
  : M (gmap string string) :=
  modify (with_sdk (fun s => add_key s secretKey password alias)) ;;;
  gets (fun k => default ∅ (sdkStore k)).

(** [addSpendingKey] up to its [await]. *)
Definition addSpendingKey_start (spendingKey : list N)
    (password alias : string) : M (gmap string string) :=
  modify (with_sdk
            (fun s => add_spending_key s spendingKey password alias)) ;;;
  gets (fun k => default ∅ (sdkStore k)).

(** [addSecretKey] and [addSpendingKey] after their [await]: the
    builder as it is then is encoded and written into the snapshots
    that were read. The write is issued here and takes its place
    before any storage call issued later. *)
Definition writeSnapshot (store : gmap string string)
    (activeAccountId : string) : M unit :=
  let* encoded := gets (fun k => encode (sdk k)) in
  modify (with_sdkStore (Some (<[activeAccountId := encoded]> store))).

Definition addSecretKey (secretKey password alias activeAccountId : string)
  : M unit :=
  let* store := addSecretKey_start secretKey password alias in
  writeSnapshot store activeAccountId.

Definition addSpendingKey (spendingKey : list N)
    (password alias activeAccountId : string) : M unit :=
  let* store := addSpendingKey_start spendingKey password alias in
  writeSnapshot store activeAccountId.

(** A method is started without [await]: what it has left to do after
    its first [await] is queued. *)
Definition defer (d : Deferred) : M unit :=
  modify (with_pending (fun waiting => waiting ++ [d])%list).

(** What a method had left to do takes place: the snapshot is written,
    or the record is appended to the key store as it is then. *)
Definition resume (d : Deferred) (k : t) : t :=
  match d with
  | Snapshot store activeAccountId =>
      (writeSnapshot store activeAccountId k).2
  | Append state => with_keyStore (Store.append state) k
  end.

(** The oldest of the pending writes lands. *)
Definition resumeNext (k : t) : t :=
  match pending k with
  | [] => k
  | d :: waiting => resume d (with_pending (fun _ => waiting) k)
  end.

(** All pending writes have landed, oldest first. *)
Definition settle (k : t) : t :=
  fold_left (fun k d => resume d k) (pending k)
    (with_pending (fun _ => []) k).

(** The loop of [resetPassword] over the batch. *)
Fixpoint reencrypt (currentPassword newPassword : string)
    (allAccounts : list KeyStore.t) : M unit :=
  match allAccounts with
  | [] => ret tt
  | account :: rest =>
      let* decryptedSecret :=
        lift_opt (Crypto.decrypt account currentPassword) in
      let reencrypted :=
        Crypto.encrypt
          {| CryptoArgs.alias := KeyStore.alias account;
             CryptoArgs.address := KeyStore.address account;
             CryptoArgs.owner := KeyStore.owner account;
             CryptoArgs.chainId := KeyStore.chainId account;
             CryptoArgs.id := KeyStore.id account;
             CryptoArgs.parentId := KeyStore.parentId account;
             CryptoArgs.password := newPassword;
             CryptoArgs.path := KeyStore.path account;
             CryptoArgs.text := decryptedSecret;
             CryptoArgs.type := KeyStore.type account |} in
      modify (with_keyStore
                (Store.update (KeyStore.id account) reencrypted)) ;;;
      reencrypt currentPassword newPassword rest
  end.

Definition resetPassword (currentPassword newPassword accountId : string)
  : M (Result.t unit ResetPasswordError.t) :=
  let* passwordOk := checkPassword currentPassword (Some accountId) in
  if negb passwordOk then
    ret (Result.err ResetPasswordError.BadPassword)
  else
    let* topLevelAccount :=
      gets (fun k => Store.getRecord Key.id (VString accountId)
                       (_keyStore k)) in
    let* derivedAccounts :=
      gets (fun k => Store.getRecords Key.parentId (VString accountId)
                       (_keyStore k)) in
    match topLevelAccount with
    | Some topLevelAccount =>
        try_catch
          (let allAccounts := topLevelAccount :: derivedAccounts in
           reencrypt currentPassword newPassword allAccounts ;;;
           let* active := getActiveAccountId in
           (if decide (Some accountId = active)
            then modify (with_password (Some newPassword))
            else ret tt) ;;;
           ret (Result.ok tt))
          (fun _ => ret (Result.err ResetPasswordError.KeyStoreError))
    | None => ret (Result.err ResetPasswordError.KeyStoreError)
    end.

Definition storeMnemonic (mnemonic : list string) (password alias : string)
  : M bool :=
  if decide (password = "") then
    throw (Error "Password is not provided! Cannot store mnemonic")
  else
    let phrase := String.concat " " mnemonic in
    try_catch
      (let* mnemonic := lift_opt (from_phrase phrase) in
       let seed := to_seed mnemonic in
       let* chainId := gets chainId in
       let* coinType := lift_opt (coinType chainId) in
       let path := "m/44'/" +:+ dec coinType +:+ "'/0'/0" in
       let* sk := lift_opt (hd_derive seed path) in
       let address := implicit sk in
       let* stored := gets _keyStore in
       let id := getId phrase [ArgNumber (N.of_nat (length stored))] in
       let mnemonicStore :=
         Crypto.encrypt
           {| CryptoArgs.id := id;
              CryptoArgs.alias := alias;
              CryptoArgs.address := address;
              CryptoArgs.owner := address;
              CryptoArgs.chainId := chainId;
              CryptoArgs.parentId := None;
              CryptoArgs.password := password;
              CryptoArgs.path :=
                {| Bip44Path.account := 0; Bip44Path.change := 0;
                   Bip44Path.index := None |};
              CryptoArgs.text := phrase;
              CryptoArgs.type := AccountType.Mnemonic |} in
       modify (with_keyStore (Store.append mnemonicStore)) ;;;
       modify (with_sdk clear_storage) ;;;
       addSecretKey sk password alias id ;;;
       setActiveAccountId id ;;;
       modify (with_password (Some password)) ;;;
       ret true)
      (fun _ => ret false).

(** The [derivationPath] of [deriveTransparentAccount]. *)
Definition derivationPath (coinType : N) (path : Bip44Path.t) : string :=
  let account := Bip44Path.account path in
  let change := Bip44Path.change path in
  let index := default 0%N (Bip44Path.index path) in
  let root := "m/44'" in
  String.concat "/"
    [root; dec coinType +:+ "'"; dec account; dec change; dec index].

Definition deriveTransparentAccount (seed : Seed) (path : Bip44Path.t)
    (parentId chainId : string) : option DerivedAccountInfo.t :=
  let account := Bip44Path.account path in
  let change := Bip44Path.change path in
  let index := default 0%N (Bip44Path.index path) in
  match coinType chainId with
  | None => None
  | Some coinType =>
      match hd_derive seed (derivationPath coinType path) with
      | None => None
      | Some text =>
          let address := implicit text in
          let id :=
            getId "account"
              [ArgString parentId; ArgNumber account; ArgNumber change;
               ArgNumber index] in
          Some {| DerivedAccountInfo.address := address;
                  DerivedAccountInfo.id := id;
                  DerivedAccountInfo.text := text |}
      end
  end.

Definition deriveShieldedAccount (seed : Seed) (path : Bip44Path.t)
    (parentId : string) : option DerivedShieldedAccountInfo.t :=
  let index := default 0%N (Bip44Path.index path) in
  let id := getId "shielded-account" [ArgString parentId; ArgNumber index] in
  match zip32_derive seed index with
  | None => None
  | Some account =>
      let xsk := Zip32.xsk account in
      let spendingKey := Zip32.spendingKey account in
      let viewingKey := Zip32.viewingKey account in
      let address := Zip32.payment_address account in
      Some {| DerivedShieldedAccountInfo.address := address;
              DerivedShieldedAccountInfo.id := id;
              DerivedShieldedAccountInfo.spendingKey := xsk;
              DerivedShieldedAccountInfo.viewingKey := viewingKey;
              DerivedShieldedAccountInfo.text :=
                stringify2 "spendingKey" spendingKey
                           "viewingKey" viewingKey |}
  end.

(** [!this._password]: no password, or the empty one. *)
Definition truthy (password : option string) : option string :=
  match password with
  | Some p => if decide (p = "") then None else Some p
  | None => None
  end.

(** [addSpendingKey], [addSecretKey] and [append] are called without
    [await] here: when the method returns, the key is in the
    transaction builder, while the snapshot and the new record are
    not written yet. *)
Definition deriveAccount (path : Bip44Path.t) (type : AccountType.t)
    (alias : string) : M DerivedAccount.t :=
  let* password := gets (fun k => truthy (_password k)) in
  match password with
  | None => throw (Error "No password is set!")
  | Some password =>
      let* active := getActiveAccountId in
      let* storedMnemonic :=
        gets (fun k => Store.getRecord Key.id (VOption active)
                         (_keyStore k)) in
      match storedMnemonic with
      | None => throw (Error "Mnemonic is not set!")
      | Some storedMnemonic =>
          let parentId := KeyStore.id storedMnemonic in
          try_catch
            (let* phrase :=
               lift_opt (Crypto.decrypt storedMnemonic password) in
             let* mnemonic := lift_opt (from_phrase phrase) in
             let seed := to_seed mnemonic in
             let* chainId := gets chainId in
             let* derived :=
               match type with
               | AccountType.ShieldedKeys =>
                   let* shieldedAccount :=
                     lift_opt (deriveShieldedAccount seed path parentId) in
                   let* store :=
                     addSpendingKey_start
                       (DerivedShieldedAccountInfo.spendingKey
                          shieldedAccount)
                       password alias in
                   defer (Snapshot store parentId) ;;;
                   ret (DerivedShieldedAccountInfo.id shieldedAccount,
                        DerivedShieldedAccountInfo.address shieldedAccount,
                        DerivedShieldedAccountInfo.text shieldedAccount,
                        DerivedShieldedAccountInfo.viewingKey
                          shieldedAccount)
               | _ =>
                   let* transparentAccount :=
                     lift_opt (deriveTransparentAccount seed path parentId
                                 chainId) in
                   let* store :=
                     addSecretKey_start
                       (DerivedAccountInfo.text transparentAccount)
                       password alias in
                   defer (Snapshot store parentId) ;;;
                   ret (DerivedAccountInfo.id transparentAccount,
                        DerivedAccountInfo.address transparentAccount,
                        DerivedAccountInfo.text transparentAccount,
                        DerivedAccountInfo.address transparentAccount)
               end in
             let '(id, address, text, owner) := derived in
             defer (Append
                      (Crypto.encrypt
                         {| CryptoArgs.alias := alias;
                            CryptoArgs.address := address;
                            CryptoArgs.owner := owner;
                            CryptoArgs.chainId := chainId;
                            CryptoArgs.id := id;
                            CryptoArgs.parentId := Some parentId;
                            CryptoArgs.password := password;
                            CryptoArgs.path := path;
                            CryptoArgs.text := text;
                            CryptoArgs.type := type |})) ;;;
             ret {| DerivedAccount.id := id;
                    DerivedAccount.address := address;
                    DerivedAccount.alias := alias;
                    DerivedAccount.chainId := chainId;
                    DerivedAccount.parentId := Some parentId;
                    DerivedAccount.path := path;
                    DerivedAccount.type := type |})
            (fun _ =>
               throw (Error "Could not decrypt mnemonic from password!"))
      end
  end.

(** The projection [queryAccounts] and [queryParentAccounts] map
    over the records: everything but [crypto] and [owner]. *)
Definition plain (record : KeyStore.t) : DerivedAccount.t :=
  {| DerivedAccount.address := KeyStore.address record;
     DerivedAccount.alias := KeyStore.alias record;
     DerivedAccount.chainId := KeyStore.chainId record;
     DerivedAccount.id := KeyStore.id record;
     DerivedAccount.parentId := KeyStore.parentId record;
     DerivedAccount.path := KeyStore.path record;
     DerivedAccount.type := KeyStore.type record |}.

Definition queryAccounts : M (list DerivedAccount.t) :=
  let* activeAccountId := getActiveAccountId in
  let* parentAccount :=
    gets (fun k => Store.getRecord Key.id (VOption activeAccountId)
                     (_keyStore k)) in
  let* derivedAccounts :=
    gets (fun k => Store.getRecords Key.parentId (VOption activeAccountId)
                     (_keyStore k)) in
  match parentAccount with
  | Some parentAccount =>
      let accounts := parentAccount :: derivedAccounts in
      ret (map plain accounts)
  | None => ret []
  end.

Definition queryParentAccounts : M (list DerivedAccount.t) :=
  let* accounts :=
    gets (fun k => Store.getRecords Key.type (VType AccountType.Mnemonic)
                     (_keyStore k)) in
  ret (map plain accounts).

(** The loop of [deleteAccount]: an empty id is skipped. *)
Fixpoint removeAll (accountIds : list string) : M unit :=
  match accountIds with
  | [] => ret tt
  | id :: rest =>
      (if decide (id = "") then ret tt
       else modify (with_keyStore (Store.remove id))) ;;;
      removeAll rest
  end.

Definition deleteAccount (accountId password : string)
  : M (Result.t unit DeleteAccountError.t) :=
  let* passwordOk := checkPassword password (Some accountId) in
  if negb passwordOk then
    ret (Result.err DeleteAccountError.BadPassword)
  else
    let* derivedAccounts :=
      gets (fun k => Store.getRecords Key.parentId (VString accountId)
                       (_keyStore k)) in
    let accountIds := accountId :: map KeyStore.id derivedAccounts in
    removeAll accountIds ;;;
    let* active := getActiveAccountId in
    (if decide (Some accountId = active)
     then modify (with_password None)
     else ret tt) ;;;
    ret (Result.ok tt).

Definition queryBalances (address : string)
  : M (list (string * option Z)) :=
  let* account :=
    gets (fun k => Store.getRecord Key.address (VString address)
                     (_keyStore k)) in
  match account with
  | None => throw (Error "Account not found.")
  | Some account =>
      ret (map (fun '(token, amount) => (token, parseInt amount))
               (query_balance (KeyStore.owner account)))
  end.
End Defs.
End KeyRing.

(** ** The keyring's part in transactions *)

(** What the signing methods call besides the collaborators above.
    A call that can throw or reject returns [option], or says with a
    boolean whether it resolved. *)
Class TxCollaborators `{Collaborators} := {
  (* new Account(txMsg, pk).to_serialized().tx_data *)
  to_serialized : list N -> string -> option (list N);
  (* sdk.submit_bond, sdk.submit_unbond, sdk.submit_ibc_transfer:
     the builder afterwards, and whether the call resolved *)
  submit_bond : Sdk -> list N -> string -> Sdk * bool;
  submit_unbond : Sdk -> list N -> string -> Sdk * bool;
  submit_ibc_transfer : Sdk -> list N -> string -> Sdk * bool;
  (* deserialize(SubmitTransferMsgSchema, TransferMsgValue, ...).source *)
  transfer_source : list N -> option string;
  (* JSON.parse(text).spendingKey; the member may be undefined *)
  parsed_spendingKey : string -> option (option string);
  (* the text a caught value has in a template literal *)
  printed : error -> string
}.

Module Transactions.
Section Defs.
Context `{TxCollaborators}.

Import KeyRing.

Notation "'let*' x ':=' m 'in' f" := (bind m (fun x => f))
  (at level 10, x name, m at level 100, f at level 200).

(** A call to the builder with the cached password: the builder is as
    the call leaves it, and a rejection is thrown. *)
Definition call_sdk (f : Sdk -> list N -> string -> Sdk * bool)
    (txMsg : list N) (password : string) : M unit :=
  fun k =>
    let '(builder, resolved) := f (sdk k) txMsg password in
    (if resolved then Return tt else Throw Foreign,
     with_sdk (fun _ => builder) k).

Definition encodeInitAccount (address : string) (txMsg : list N)
  : M (list N) :=
  let* password := gets (fun k => truthy (_password k)) in
  match password with
  | None => throw (Error "Not authenticated!")
  | Some password =>
      let* account :=
        gets (fun k => Store.getRecord Key.address (VString address)
                         (_keyStore k)) in
      match account with
      | None => throw (Error ("Account not found for " +:+ address))
      | Some account =>
          let* pk :=
            try_catch (lift_opt (Crypto.decrypt account password))
              (fun e =>
                 throw (Error ("Could not unlock account for " +:+ address
                                 +:+ ": " +:+ printed e))) in
          try_catch (lift_opt (to_serialized txMsg pk))
            (fun e =>
               throw (Error ("Could not encode InitAccount for " +:+ address
                               +:+ ": " +:+ printed e)))
      end
  end.

Definition submitBond (txMsg : list N) : M unit :=
  let* password := gets (fun k => truthy (_password k)) in
  match password with
  | None => throw (Error "Not authenticated!")
  | Some password =>
      try_catch (call_sdk submit_bond txMsg password)
        (fun e => throw (Error ("Could not submit bond tx: " +:+ printed e)))
  end.

Definition submitUnbond (txMsg : list N) : M unit :=
  let* password := gets (fun k => truthy (_password k)) in
  match password with
  | None => throw (Error "Not authenticated!")
  | Some password =>
      try_catch (call_sdk submit_unbond txMsg password)
        (fun e =>
           throw (Error ("Could not submit unbond tx: " +:+ printed e)))
  end.

Definition submitTransfer (txMsg : list N)
    (submit : string -> option string -> M unit) : M unit :=
  let* password := gets (fun k => truthy (_password k)) in
  match password with
  | None => throw (Error "Not authenticated!")
  | Some password =>
      let* source := lift_opt (transfer_source txMsg) in
      let* account :=
        gets (fun k => Store.getRecord Key.address (VString source)
                         (_keyStore k)) in
      match account with
      | None => throw (Error "Account not found.")
      | Some account =>
          let* text := lift_opt (Crypto.decrypt account password) in
          let* extendedSpendingKey :=
            match KeyStore.type account with
            | AccountType.ShieldedKeys => lift_opt (parsed_spendingKey text)
            | _ => ret None
            end in
          submit password extendedSpendingKey
      end
  end.

Definition submitIbcTransfer (txMsg : list N) : M unit :=
  let* password := gets (fun k => truthy (_password k)) in
  match password with
  | None => throw (Error "Not authenticated!")
  | Some password =>
      try_catch (call_sdk submit_ibc_transfer txMsg password)
        (fun e =>
           throw (Error ("Could not submit ibc transfer tx: "
                           +:+ printed e)))
  end.
End Defs.
End Transactions.

(** ** A reference instance of the collaborators

    Small stand-ins on which the keyring runs by computation: a blob
    records the password and the text it was sealed with, a phrase is
    accepted when it has 12 or 24 words, keys and addresses are built
    from the seed and the path. *)
Module Reference.

Definition words_of (phrase : string) : nat :=
  S (length (filter (fun c => c = " "%char) (list_ascii_of_string phrase))).

Definition sk_of (seed path : string) : string :=
  "sk(" +:+ seed +:+ "," +:+ path +:+ ")".

Definition wallet (seed : string) (index : N) : Zip32.t :=
  {| Zip32.xsk := [index];
     Zip32.spendingKey := "xsktest" +:+ dec index;
     Zip32.viewingKey := "xfvktest" +:+ dec index;
     Zip32.payment_address := "patest" +:+ dec index |}.

Definition collaborators : Collaborators :=
  {| Blob := string * string;
     Seed := string;
     Words := string;
     Sdk := list string;
     seal := fun password text => (password, text);
     unseal := fun blob password =>
       if decide (blob.1 = password) then Some blob.2 else None;
     from_phrase := fun phrase =>
       if decide (words_of phrase = 12%nat \/ words_of phrase = 24%nat)
       then Some phrase else None;
     to_seed := fun words => "seed(" +:+ words +:+ ")";
     coinType := fun chainId =>
       if decide (chainId = "namada-test") then Some 877%N else None;
     hd_derive := fun seed path => Some (sk_of seed path);
     implicit := fun sk => "atest1" +:+ sk;
     zip32_derive := fun seed index => Some (wallet seed index);
     add_key := fun s secretKey _ _ => (s ++ [secretKey])%list;
     add_spending_key := fun s _ _ alias => (s ++ [alias])%list;
     clear_storage := fun _ => [];
     encode := String.concat ",";
     decode := fun _ bytes => [bytes];
     query_balance := fun _ => [("NAM", "1000")];
     parseInt := fun amount =>
       (fun u => Z.of_N (N.of_uint u)) <$> NilEmpty.uint_of_string amount |}.

#[local] Existing Instance collaborators.

Definition fresh : KeyRing.t :=
  {| KeyRing._keyStore := [];
     KeyRing._password := None;
     KeyRing._status := Empty;
     KeyRing.activeAccountStore := None;
     KeyRing.sdkStore := None;
     KeyRing.sdk := [];
     KeyRing.chainId := "namada-test";
     KeyRing.pending := [] |}.

Definition phrase12 : list string :=
  repeat "abandon" 11 ++ ["about"].

(* after importing the phrase under "hunter2" *)
Definition imported : KeyRing.t :=
  Eval vm_compute in
    (KeyRing.storeMnemonic phrase12 "hunter2" "main" fresh).2.

Definition path000 : Bip44Path.t :=
  {| Bip44Path.account := 0; Bip44Path.change := 0;
     Bip44Path.index := Some 0%N |}.

Definition path00 : Bip44Path.t :=
  {| Bip44Path.account := 0; Bip44Path.change := 0;
     Bip44Path.index := None |}.

(* after deriving a transparent child, once its writes have landed *)
Definition derived1 : KeyRing.t :=
  Eval vm_compute in
    KeyRing.settle
      (KeyRing.deriveAccount path000 AccountType.PrivateKey "a" imported).2.

(* [derived1] after unlock("hunter2") *)
Definition unlocked1 : KeyRing.t :=
  Eval vm_compute in (KeyRing.unlock "hunter2" derived1).2.

(* and after deriving a shielded one *)
Definition derived2 : KeyRing.t :=
  Eval vm_compute in
    KeyRing.settle
      (KeyRing.deriveAccount path00 AccountType.ShieldedKeys "z" derived1).2.

(* the id of the imported parent *)
Definition parent : string :=
  Eval vm_compute in getId (String.concat " " phrase12) [ArgNumber 0].

Definition record (id : string) (parentId : option string)
    (type : AccountType.t) (address password text : string) : KeyStore.t :=
  {| KeyStore.id := id;
     KeyStore.parentId := parentId;
     KeyStore.alias := "";
     KeyStore.chainId := "namada-test";
     KeyStore.path := path000;
     KeyStore.type := type;
     KeyStore.address := address;
     KeyStore.owner := address;
     KeyStore.crypto := (password, text) |}.

(* the record at a position of the key store *)
Definition nth_record (n : nat) (k : KeyRing.t) : KeyStore.t :=
  nth n (KeyRing._keyStore k) (record "" None AccountType.Mnemonic "" "" "").

Definition holding (records : list KeyStore.t) : KeyRing.t :=
  {| KeyRing._keyStore := records;
     KeyRing._password := Some "hunter2";
     KeyRing._status := Unlocked;
     KeyRing.activeAccountStore := Some "p";
     KeyRing.sdkStore := None;
     KeyRing.sdk := [];
     KeyRing.chainId := "namada-test";
     KeyRing.pending := [] |}.

(* a parent under "hunter2" whose second child does not open under it *)
Definition halfSealed : KeyRing.t :=
  holding
    [record "p" None AccountType.Mnemonic "atest1p" "hunter2" "phrase";
     record "c1" (Some "p") AccountType.PrivateKey "atest1c1" "hunter2" "key1";
     record "c2" (Some "p") AccountType.PrivateKey "atest1c2" "other" "key2"].

(* [derived2] after lock() *)
Definition locked2 : KeyRing.t :=
  Eval vm_compute in (KeyRing.lock derived2).2.

(* the records of [derived2] with no active account id *)
Definition orphaned : KeyRing.t :=
  Eval vm_compute in KeyRing.with_activeAccount None derived2.

(* [unlocked1] on a chain the registry does not know *)
Definition elsewhere : KeyRing.t :=
  {| KeyRing._keyStore := KeyRing._keyStore unlocked1;
     KeyRing._password := KeyRing._password unlocked1;
     KeyRing._status := KeyRing._status unlocked1;
     KeyRing.activeAccountStore := KeyRing.activeAccountStore unlocked1;
     KeyRing.sdkStore := KeyRing.sdkStore unlocked1;
     KeyRing.sdk := KeyRing.sdk unlocked1;
     KeyRing.chainId := "cosmoshub-4";
     KeyRing.pending := [] |}.

(* a callback that reports what it is called with *)
Definition report (password : string) (xsk : option string)
  : KeyRing.M unit :=
  KeyRing.throw (Error (password +:+ "/" +:+ default "none" xsk)).

(* a transfer message whose source is the text *)
Definition transfer_from (source : string) : list N :=
  map N_of_ascii (list_ascii_of_string source).

(* the member "spendingKey" of the text [stringify2] prints, read up
   to the closing quote *)
Fixpoint until_quote (s : string) : string :=
  match s with
  | EmptyString => EmptyString
  | String c rest =>
      if decide (c = "034"%char) then EmptyString
      else String c (until_quote rest)
  end.

Fixpoint after_prefix (prefix s : string) : option string :=
  match prefix, s with
  | EmptyString, _ => Some s
  | String p prefix', String c rest =>
      if decide (p = c) then after_prefix prefix' rest else None
  | String _ _, EmptyString => None
  end.

Definition txCollaborators : TxCollaborators :=
  {| to_serialized := fun txMsg pk => Some txMsg;
     submit_bond := fun s _ _ => ((s ++ ["bond"])%list, true);
     submit_unbond := fun s _ _ => ((s ++ ["unbond"])%list, true);
     submit_ibc_transfer := fun s _ _ => (s, false);
     transfer_source := fun txMsg =>
       match txMsg with
       | [] => None
       | _ => Some (string_of_list_ascii (map ascii_of_N txMsg))
       end;
     parsed_spendingKey := fun text =>
       (fun rest => Some (until_quote rest))
         <$> after_prefix ("{" +:+ quote +:+ "spendingKey" +:+ quote +:+ ":"
                             +:+ quote) text;
     printed := fun e =>
       match e with
       | Error msg => "Error: " +:+ msg
       | Foreign => "rejected"
       end |}.

#[local] Existing Instance txCollaborators.

End Reference.
(** ** Notions used in the statements *)

(** The derivation path as the specification words it: the index
    segment is left out when the path has no index. *)
Definition derivationPath_with_optional_index (coinType : N)
    (path : Bip44Path.t) : string :=
  String.concat "/"
    (["m/44'"; dec coinType +:+ "'"; dec (Bip44Path.account path);
      dec (Bip44Path.change path)]
       ++ match Bip44Path.index path with
          | Some index => [dec index]
          | None => []
          end).

(** The name the specification gives to the id of a shielded account:
    all three path components after the parent id. *)
Definition shielded_name_with_full_path (parentId : string)
    (account change index : N) : string :=
  "shielded-account::" +:+ parentId +:+ "::" +:+ dec account +:+ "::"
    +:+ dec change +:+ "::" +:+ dec index.

Section Notions.
Context `{Collaborators}.

(** What [checkPassword] answers, as a function of the keyring. *)
Definition passwordOk (password : string) (accountId : option string)
    (k : KeyRing.t) : bool :=
  let idToCheck :=
    match accountId with
    | Some a => Some a
    | None => KeyRing.activeAccountStore k
    end in
  match Store.getRecord Key.id (VOption idToCheck) (KeyRing._keyStore k) with
  | Some mnemonic => bool_decide (is_Some (Crypto.decrypt mnemonic password))
  | None => false
  end.

(** What the loop of [resetPassword] writes for one record. *)
Definition reseal (currentPassword newPassword : string)
    (account : KeyStore.t) : option KeyStore.t :=
  text ← Crypto.decrypt account currentPassword;
  Some (Crypto.encrypt
          {| CryptoArgs.alias := KeyStore.alias account;
             CryptoArgs.address := KeyStore.address account;
             CryptoArgs.owner := KeyStore.owner account;
             CryptoArgs.chainId := KeyStore.chainId account;
             CryptoArgs.id := KeyStore.id account;
             CryptoArgs.parentId := KeyStore.parentId account;
             CryptoArgs.password := newPassword;
             CryptoArgs.path := KeyStore.path account;
             CryptoArgs.text := text;
             CryptoArgs.type := KeyStore.type account |}).

(** The key store after the loop has gone through [accounts]. *)
Definition rotate (currentPassword newPassword : string)
    (accounts stored : list KeyStore.t) : list KeyStore.t :=
  fold_left
    (fun stored account =>
       match reseal currentPassword newPassword account with
       | Some reencrypted =>
           Store.update (KeyStore.id account) reencrypted stored
       | None => stored
       end)
    accounts stored.

(** No record of the key store has the empty string as id. *)
Definition ids_nonempty (k : KeyRing.t) : Prop :=
  Forall (fun record => KeyStore.id record <> "") (KeyRing._keyStore k).

(** The records that wait to be appended, oldest first. *)
Definition appends (waiting : list KeyRing.Deferred) : list KeyStore.t :=
  omap (fun d =>
          match d with
          | KeyRing.Append state => Some state
          | KeyRing.Snapshot _ _ => None
          end) waiting.

(** No record that waits to be appended has the empty string as
    id. *)
Definition pending_ids_nonempty (k : KeyRing.t) : Prop :=
  Forall (fun record => KeyStore.id record <> "")
    (appends (KeyRing.pending k)).

(** What changes the keyring: a call of a method that writes a field
    or a store, a signing call, which changes the transaction builder
    at most, and the landing of a pending write. *)
Inductive step : KeyRing.t -> KeyRing.t -> Prop :=
| step_lock k : step k (KeyRing.lock k).2
| step_unlock k password : step k (KeyRing.unlock password k).2
| step_setActiveAccountId k parentId :
    step k (KeyRing.setActiveAccountId parentId k).2
| step_resetPassword k currentPassword newPassword accountId :
    step k (KeyRing.resetPassword currentPassword newPassword accountId k).2
| step_storeMnemonic k mnemonic password alias :
    step k (KeyRing.storeMnemonic mnemonic password alias k).2
| step_deriveAccount k path type alias :
    step k (KeyRing.deriveAccount path type alias k).2
| step_deleteAccount k accountId password :
    step k (KeyRing.deleteAccount accountId password k).2
| step_sign k builder : step k (KeyRing.with_sdk builder k)
| step_resumeNext k : step k (KeyRing.resumeNext k).

(** The keyrings that come from an empty key store. *)
Inductive reachable : KeyRing.t -> Prop :=
| reachable_empty k :
    KeyRing._keyStore k = [] -> KeyRing.pending k = [] -> reachable k
| reachable_step k k' : reachable k -> step k k' -> reachable k'.

(** The key store after the loop of [deleteAccount] over the ids. *)
Definition purge (accountIds : list string) (stored : list KeyStore.t)
  : list KeyStore.t :=
  fold_left
    (fun stored id =>
       if decide (id = "") then stored else Store.remove id stored)
    accountIds stored.

(** What [deriveAccount] takes from the derivation of either kind:
    id, address, text and owner. *)
Definition childFields (type : AccountType.t) (seed : Seed)
    (path : Bip44Path.t) (parentId chainId : string)
  : option (string * string * string * string) :=
  match type with
  | AccountType.ShieldedKeys =>
      (fun a => (DerivedShieldedAccountInfo.id a,
                 DerivedShieldedAccountInfo.address a,
                 DerivedShieldedAccountInfo.text a,
                 DerivedShieldedAccountInfo.viewingKey a))
        <$> KeyRing.deriveShieldedAccount seed path parentId
  | _ =>
      (fun a => (DerivedAccountInfo.id a,
                 DerivedAccountInfo.address a,
                 DerivedAccountInfo.text a,
                 DerivedAccountInfo.address a))
        <$> KeyRing.deriveTransparentAccount seed path parentId chainId
  end.

(** The seed [deriveAccount] works from: the parent's phrase opened
    under the password, checked and expanded. *)
Definition seedOf (parent : KeyStore.t) (password : string) : option Seed :=
  phrase ← Crypto.decrypt parent password;
  words ← from_phrase phrase;
  Some (to_seed words).

(** The batch of [resetPassword] and [deleteAccount]: the record of
    the account and the records derived from it. *)
Definition inBatch (accountId : string) (record : KeyStore.t) : Prop :=
  KeyStore.id record = accountId \/ KeyStore.parentId record = Some accountId.

(** The parent record [storeMnemonic] appends. *)
Definition parentRecord (mnemonic : list string) (password alias sk : string)
    (k : KeyRing.t) : KeyStore.t :=
  let phrase := String.concat " " mnemonic in
  Crypto.encrypt
    {| CryptoArgs.id :=
         getId phrase [ArgNumber (N.of_nat (length (KeyRing._keyStore k)))];
       CryptoArgs.alias := alias;
       CryptoArgs.address := implicit sk;
       CryptoArgs.owner := implicit sk;
       CryptoArgs.chainId := KeyRing.chainId k;
       CryptoArgs.parentId := None;
       CryptoArgs.password := password;
       CryptoArgs.path :=
         {| Bip44Path.account := 0; Bip44Path.change := 0;
            Bip44Path.index := None |};
       CryptoArgs.text := phrase;
       CryptoArgs.type := AccountType.Mnemonic |}.

(** A blob opens under the password it was sealed with, to the text
    that was sealed. *)
Definition opens_what_it_seals : Prop :=
  forall password text, unseal (seal password text) password = Some text.

(** A blob opens under no other password than the one it was sealed
    with. *)
Definition opens_under_one_password : Prop :=
  forall password other text,
    is_Some (unseal (seal password text) other) -> other = password.
End Notions.

(** * Properties *)

(** ** The uuid model on known digests *)

Example sha1_abc :
  UUID.hex (UUID.sha1 (UUID.bytes_of_string "abc"))
  = "a9993e364706816aba3e25717850c26c9cd0d89d".
Proof. vm_compute. reflexivity. Qed.

Example sha1_empty :
  UUID.hex (UUID.sha1 []) = "da39a3ee5e6b4b0d3255bfef95601890afd80709".
Proof. vm_compute. reflexivity. Qed.

Example sha1_two_blocks :
  UUID.hex (UUID.sha1 (UUID.bytes_of_string
    "abcdbcdecdefdefgefghfghighijhijkijkljklmklmnlmnomnopnopq"))
  = "84983e441c3bd26ebaae4aa1f95129e5e54670f1".
Proof. vm_compute. reflexivity. Qed.

Example v5_dns_python_org :
  UUID.v5 "python.org" "6ba7b810-9dad-11d1-80b4-00c04fd430c8"
  = "886313e1-3b8a-5372-9b90-0c9aee199e5d".
Proof. vm_compute. reflexivity. Qed.

Example parent_id_of_reference :
  Reference.parent = "cad6fa66-ec0c-53b0-9a4d-fee0c3485fc0".
Proof. vm_compute. reflexivity. Qed.

(** ** The monad of methods *)

Ltac run :=
  unfold KeyRing.bind, KeyRing.ret, KeyRing.gets, KeyRing.modify,
    KeyRing.throw, KeyRing.try_catch, KeyRing.lift_opt,
    KeyRing.getActiveAccountId, KeyRing.addSecretKey_start,
    KeyRing.addSpendingKey_start, KeyRing.writeSnapshot, KeyRing.defer in *;
  simpl in *.

Ltac fields :=
  cbn [KeyRing._keyStore KeyRing._password KeyRing._status
       KeyRing.activeAccountStore KeyRing.sdkStore KeyRing.sdk
       KeyRing.chainId KeyRing.pending] in *.

Section Methods.
Context `{Collaborators}.

Implicit Types (k : KeyRing.t) (stored : list KeyStore.t).

(** [checkPassword] never throws and reads only. *)
Lemma checkPassword_reads password accountId k :
  KeyRing.checkPassword password accountId k
  = (Return (passwordOk password accountId k), k).
Proof.
  unfold KeyRing.checkPassword, passwordOk. run.
  destruct (Store.getRecord _ _ _) as [m|]; [|reflexivity].
  destruct (Crypto.decrypt m password); reflexivity.
Qed.

Lemma passwordOk_true password accountId k :
  passwordOk password (Some accountId) k = true ->
  exists top text,
    Store.getRecord Key.id (VString accountId) (KeyRing._keyStore k)
    = Some top
    /\ Crypto.decrypt top password = Some text.
Proof.
  unfold passwordOk. simpl.
  destruct (Store.getRecord _ _ _) as [m|]; [|discriminate].
  intros Hd%bool_decide_eq_true_1. destruct Hd as [text Hd]. eauto.
Qed.

(** C6. If the current password fails the check against the record
    of [accountId], [resetPassword] returns [BadPassword] and leaves
    the keyring as it was: the key store with every blob, and the
    cached password. *)
Theorem resetPassword_bad_password k currentPassword newPassword accountId :
  (KeyRing.checkPassword currentPassword (Some accountId) k).1
  = Return false ->
  KeyRing.resetPassword currentPassword newPassword accountId k
  = (Return (Result.err ResetPasswordError.BadPassword), k).
Proof.
  rewrite checkPassword_reads. simpl. intros [= Hok].
  unfold KeyRing.resetPassword, KeyRing.bind.
  rewrite checkPassword_reads, Hok. reflexivity.
Qed.

(** C10. If the password fails the check against the active record,
    [unlock] returns without throwing and the keyring is unchanged:
    same status, same cached password. *)
Theorem unlock_bad_password k password :
  (KeyRing.checkPassword password None k).1 = Return false ->
  KeyRing.unlock password k = (Return tt, k).
Proof.
  rewrite checkPassword_reads. simpl. intros [= Hok].
  unfold KeyRing.unlock, KeyRing.bind.
  rewrite checkPassword_reads, Hok. reflexivity.
Qed.

(** C5, amended. With no active parent record [queryAccounts]
    returns the empty list; with no record at the address
    [queryBalances] throws "Account not found.". Neither changes the
    keyring. *)
Theorem queries_on_absent_target k address :
  (Store.getRecord Key.id (VOption (KeyRing.activeAccountStore k))
     (KeyRing._keyStore k) = None ->
   KeyRing.queryAccounts k = (Return [], k))
  /\ (Store.getRecord Key.address (VString address) (KeyRing._keyStore k)
      = None ->
      KeyRing.queryBalances address k
      = (Throw (Error "Account not found."), k)).
Proof.
  split.
  - intros Hparent. unfold KeyRing.queryAccounts. run.
    rewrite Hparent. reflexivity.
  - intros Haddress. unfold KeyRing.queryBalances. run.
    rewrite Haddress. reflexivity.
Qed.

Lemma string_app_assoc (a b c : string) :
  (a +:+ b) +:+ c = a +:+ (b +:+ c).
Proof.
  induction a as [|x a IH]; [reflexivity|].
  change (String x ((a +:+ b) +:+ c) = String x (a +:+ (b +:+ c))).
  by rewrite IH.
Qed.

Lemma derivationPath_rendered coin path :
  KeyRing.derivationPath coin path
  = "m/44'/" +:+ dec coin +:+ "'/" +:+ dec (Bip44Path.account path)
      +:+ "/" +:+ dec (Bip44Path.change path)
      +:+ "/" +:+ dec (default 0%N (Bip44Path.index path)).
Proof.
  unfold KeyRing.derivationPath. cbn [String.concat].
  rewrite !string_app_assoc. reflexivity.
Qed.

(** C4, amended. Transparent derivation hands the wallet the path
    m/44'/coinType'/account/change/index, in which an absent index is
    printed as 0: the index segment is always there. *)
Theorem deriveTransparentAccount_path seed path parentId chainId :
  KeyRing.deriveTransparentAccount seed path parentId chainId
  = (coin ← coinType chainId;
     text ← hd_derive seed
              ("m/44'/" +:+ dec coin +:+ "'/"
                 +:+ dec (Bip44Path.account path) +:+ "/"
                 +:+ dec (Bip44Path.change path) +:+ "/"
                 +:+ dec (default 0%N (Bip44Path.index path)));
     Some {| DerivedAccountInfo.address := implicit text;
             DerivedAccountInfo.id :=
               getId "account"
                 [ArgString parentId;
                  ArgNumber (Bip44Path.account path);
                  ArgNumber (Bip44Path.change path);
                  ArgNumber (default 0%N (Bip44Path.index path))];
             DerivedAccountInfo.text := text |}).
Proof.
  unfold KeyRing.deriveTransparentAccount.
  destruct (coinType chainId) as [coin|]; [|reflexivity].
  cbn [mbind option_bind]. rewrite derivationPath_rendered.
  destruct (hd_derive _ _); reflexivity.
Qed.

Lemma getId_rendered2 name a b :
  getId name [a; b]
  = UUID.v5 (name +:+ "::" +:+ show a +:+ "::" +:+ show b) UUID_NAMESPACE.
Proof.
  unfold getId. cbn [fold_left]. by rewrite !string_app_assoc.
Qed.

Lemma getId_rendered1 name a :
  getId name [a] = UUID.v5 (name +:+ "::" +:+ show a) UUID_NAMESPACE.
Proof. reflexivity. Qed.

(** C3, amended. The id of a derived shielded account is the uuid of
    "shielded-account::parentId::index" under the fixed namespace,
    an absent index counting as 0; account and change are not part
    of the name. The derivation returns exactly when the wallet
    does. *)
Theorem deriveShieldedAccount_id seed path parentId :
  DerivedShieldedAccountInfo.id
    <$> KeyRing.deriveShieldedAccount seed path parentId
  = (fun _ =>
       UUID.v5 ("shielded-account::" +:+ parentId +:+ "::"
                  +:+ dec (default 0%N (Bip44Path.index path)))
               "9bfceade-37fe-11ed-acc0-a3da3461b38c")
      <$> zip32_derive seed (default 0%N (Bip44Path.index path)).
Proof.
  unfold KeyRing.deriveShieldedAccount.
  destruct (zip32_derive _ _); [|reflexivity].
  cbn [fmap option_fmap option_map DerivedShieldedAccountInfo.id].
  by rewrite getId_rendered2.
Qed.

(** C9, amended. For a word list the crypto package rejects,
    [storeMnemonic] appends no record and leaves the keyring as it
    was. With a password it returns false: the rejection is caught
    and no error reaches the caller. With the empty password it
    throws "Password is not provided! Cannot store mnemonic". *)
Theorem storeMnemonic_invalid_phrase k mnemonic password alias :
  from_phrase (String.concat " " mnemonic) = None ->
  KeyRing.storeMnemonic mnemonic password alias k
  = (if decide (password = "")
     then Throw (Error "Password is not provided! Cannot store mnemonic")
     else Return false,
     k).
Proof.
  intros Hwords. unfold KeyRing.storeMnemonic.
  destruct (decide (password = "")); [reflexivity|].
  run. rewrite Hwords. reflexivity.
Qed.

(** *** Deleting *)

Lemma purge_cons id rest stored :
  purge (id :: rest) stored
  = purge rest (if decide (id = "") then stored else Store.remove id stored).
Proof. reflexivity. Qed.

Lemma removeAll_run accountIds k :
  KeyRing.removeAll accountIds k
  = (Return tt, KeyRing.with_keyStore (purge accountIds) k).
Proof.
  revert k. induction accountIds as [|id rest IH]; intros k.
  - destruct k; reflexivity.
  - cbn [KeyRing.removeAll]. unfold KeyRing.bind at 1.
    destruct (decide (id = "")) as [Hid|Hid] eqn:Hdec.
    + cbn [KeyRing.ret]. rewrite IH. destruct k.
      unfold KeyRing.with_keyStore. fields. by rewrite purge_cons, Hdec.
    + unfold KeyRing.modify. rewrite IH. destruct k.
      unfold KeyRing.with_keyStore. fields. by rewrite purge_cons, Hdec.
Qed.

Lemma elem_of_remove id record stored :
  record ∈ Store.remove id stored
  <-> record ∈ stored /\ KeyStore.id record <> id.
Proof. unfold Store.remove. rewrite list_elem_of_filter. tauto. Qed.

Lemma elem_of_purge accountIds record stored :
  record ∈ purge accountIds stored
  <-> record ∈ stored
      /\ forall id, id ∈ accountIds -> id <> "" -> KeyStore.id record <> id.
Proof.
  revert stored. induction accountIds as [|a rest IH]; intros stored.
  - cbn. split; [intros Hin; split; [exact Hin|]|tauto].
    intros id Hid. by apply elem_of_nil in Hid.
  - unfold purge in *. cbn [fold_left]. rewrite IH.
    destruct (decide (a = "")) as [Ha|Ha].
    + split.
      * intros [Hin Hrest]. split; [exact Hin|].
        intros id [->|Hid]%elem_of_cons Hne; [contradiction|].
        by apply Hrest.
      * intros [Hin Hall]. split; [exact Hin|].
        intros id Hid. apply Hall. by right.
    + rewrite elem_of_remove. split.
      * intros [[Hin Hne] Hrest]. split; [exact Hin|].
        intros id [->|Hid]%elem_of_cons Hne'; [exact Hne|].
        by apply Hrest.
      * intros [Hin Hall]. split; [split; [exact Hin|]|].
        -- apply Hall; [by left|exact Ha].
        -- intros id Hid. apply Hall. by right.
Qed.

Lemma getRecord_Some key value stored record :
  Store.getRecord key value stored = Some record ->
  record ∈ stored /\ Store.field key record = value.
Proof.
  unfold Store.getRecord. intros Hfind.
  apply find_some in Hfind as [Hin Hval].
  split; [by apply list_elem_of_In|].
  by apply bool_decide_eq_true_1 in Hval.
Qed.

Lemma elem_of_getRecords key value stored record :
  record ∈ Store.getRecords key value stored
  <-> record ∈ stored /\ Store.field key record = value.
Proof. unfold Store.getRecords. rewrite list_elem_of_filter. tauto. Qed.

Lemma deleteAccount_run k accountId password :
  passwordOk password (Some accountId) k = true ->
  KeyRing.deleteAccount accountId password k
  = (Return (Result.ok tt),
     let accountIds :=
       accountId
       :: map KeyStore.id
            (Store.getRecords Key.parentId (VString accountId)
               (KeyRing._keyStore k)) in
     let k1 := KeyRing.with_keyStore (purge accountIds) k in
     if decide (Some accountId = KeyRing.activeAccountStore k)
     then KeyRing.with_password None k1 else k1).
Proof.
  intros Hok. unfold KeyRing.deleteAccount, KeyRing.bind.
  rewrite checkPassword_reads, Hok. cbn [negb].
  unfold KeyRing.gets at 1. rewrite removeAll_run.
  unfold KeyRing.getActiveAccountId, KeyRing.gets, KeyRing.ret,
    KeyRing.modify.
  cbn [KeyRing.activeAccountStore KeyRing.with_keyStore].
  destruct (decide (Some accountId = _)); reflexivity.
Qed.

(** C8. On the key stores the keyring can hold, in which no record has
    the empty string as id, as every id is a uuid made by [getId]
    (lemma [reachable_ids_nonempty]), and for an [accountId] whose
    record passes the password check, [deleteAccount] returns ok;
    afterwards no record has [accountId] as id or as parent id,
    nothing else went away, and the cached password is forgotten
    exactly when [accountId] was the active id. *)
Theorem deleteAccount_cascades k accountId password :
  ids_nonempty k ->
  (KeyRing.checkPassword password (Some accountId) k).1 = Return true ->
  exists k',
    KeyRing.deleteAccount accountId password k = (Return (Result.ok tt), k')
    /\ (forall record, record ∈ KeyRing._keyStore k' ->
          record ∈ KeyRing._keyStore k
          /\ KeyStore.id record <> accountId
          /\ KeyStore.parentId record <> Some accountId)
    /\ (forall record, record ∈ KeyRing._keyStore k ->
          KeyStore.id record <> accountId ->
          (forall child, child ∈ KeyRing._keyStore k ->
             KeyStore.parentId child = Some accountId ->
             KeyStore.id child <> KeyStore.id record) ->
          record ∈ KeyRing._keyStore k')
    /\ KeyRing._password k'
       = (if decide (Some accountId = KeyRing.activeAccountStore k)
          then None else KeyRing._password k)
    /\ KeyRing.activeAccountStore k' = KeyRing.activeAccountStore k.
Proof.
  intros Hids. rewrite checkPassword_reads. simpl. intros [= Hok].
  destruct (passwordOk_true _ _ _ Hok) as (top & text & Htop & _).
  apply getRecord_Some in Htop as [Htop_in Htop_id].
  simpl in Htop_id. injection Htop_id as Htop_id.
  unfold ids_nonempty in Hids. rewrite Forall_forall in Hids.
  rewrite (deleteAccount_run _ _ _ Hok).
  set (ids := accountId :: _).
  eexists. split; [reflexivity|]. cbv zeta.
  assert (Hstore :
    KeyRing._keyStore
      (if decide (Some accountId = KeyRing.activeAccountStore k)
       then KeyRing.with_password None
              (KeyRing.with_keyStore (purge ids) k)
       else KeyRing.with_keyStore (purge ids) k)
    = purge ids (KeyRing._keyStore k)).
  { destruct (decide _); reflexivity. }
  rewrite Hstore. clear Hstore.
  split; [|split; [|split]].
  - intros record [Hin Hne]%elem_of_purge. split; [exact Hin|]. split.
    + apply Hne; [by left|]. rewrite <- Htop_id. by apply Hids.
    + intros Hparent.
      apply (Hne (KeyStore.id record)); [|by apply Hids|reflexivity].
      right. apply list_elem_of_fmap. exists record.
      split; [reflexivity|].
      apply elem_of_getRecords. split; [exact Hin|].
      simpl. by rewrite Hparent.
  - intros record Hin Hne Hchildren.
    apply elem_of_purge. split; [exact Hin|].
    intros id [->|Hid]%elem_of_cons _; [exact Hne|].
    apply list_elem_of_fmap in Hid as (child & -> & Hchild).
    apply elem_of_getRecords in Hchild as [Hchild_in Hchild_parent].
    intros Heq. apply (Hchildren child Hchild_in); [|by symmetry].
    simpl in Hchild_parent.
    destruct (KeyStore.parentId child); simpl in *; congruence.
  - destruct (decide (Some accountId = _)); reflexivity.
  - destruct (decide (Some accountId = _)); reflexivity.
Qed.

(** *** Rotating the password *)

Lemma rotate_cons currentPassword newPassword account rest stored :
  rotate currentPassword newPassword (account :: rest) stored
  = rotate currentPassword newPassword rest
      (match reseal currentPassword newPassword account with
       | Some reencrypted =>
           Store.update (KeyStore.id account) reencrypted stored
       | None => stored
       end).
Proof. reflexivity. Qed.

(** The loop stops at the first record that does not open, with the
    records before it written. *)
Lemma reencrypt_stops currentPassword newPassword done bad rest k :
  Forall (fun account => is_Some (Crypto.decrypt account currentPassword))
    done ->
  Crypto.decrypt bad currentPassword = None ->
  KeyRing.reencrypt currentPassword newPassword (done ++ bad :: rest) k
  = (Throw Foreign,
     KeyRing.with_keyStore (rotate currentPassword newPassword done) k).
Proof.
  intros Hdone Hbad. revert k.
  induction Hdone as [|account done [text Htext] _ IH]; intros k.
  - cbn [app KeyRing.reencrypt]. unfold KeyRing.bind, KeyRing.lift_opt.
    rewrite Hbad. destruct k; reflexivity.
  - cbn [app KeyRing.reencrypt]. unfold KeyRing.bind, KeyRing.lift_opt.
    rewrite Htext. unfold KeyRing.ret, KeyRing.modify. rewrite IH.
    destruct k. unfold KeyRing.with_keyStore. fields.
    rewrite rotate_cons. unfold reseal. rewrite Htext. reflexivity.
Qed.

(** On a key store without repeated ids the loop rewrites exactly the
    records it went through, each in its place. *)
Lemma unique_by_id stored (r a : KeyStore.t) :
  NoDup (map KeyStore.id stored) ->
  r ∈ stored -> a ∈ stored -> KeyStore.id r = KeyStore.id a -> r = a.
Proof.
  induction stored as [|x stored IH]; intros Hnd Hr Ha Hid.
  - by apply elem_of_nil in Hr.
  - cbn [map] in Hnd. apply NoDup_cons in Hnd as [Hx Hnd].
    apply elem_of_cons in Hr as [->|Hr]; apply elem_of_cons in Ha as [->|Ha].
    + reflexivity.
    + exfalso. apply Hx. rewrite Hid.
      apply list_elem_of_fmap. by exists a.
    + exfalso. apply Hx. rewrite <- Hid.
      apply list_elem_of_fmap. by exists r.
    + by apply IH.
Qed.

Lemma reseal_id currentPassword newPassword account reencrypted :
  reseal currentPassword newPassword account = Some reencrypted ->
  KeyStore.id reencrypted = KeyStore.id account.
Proof.
  unfold reseal. destruct (Crypto.decrypt _ _); [|discriminate].
  by intros [= <-].
Qed.

Lemma rotate_unique_ids currentPassword newPassword accounts stored :
  NoDup (map KeyStore.id stored) ->
  (forall account, account ∈ accounts -> account ∈ stored) ->
  rotate currentPassword newPassword accounts stored
  = map (fun record =>
           if decide (KeyStore.id record ∈ map KeyStore.id accounts)
           then default record (reseal currentPassword newPassword record)
           else record)
        stored.
Proof.
  intros Hnd. induction accounts as [|a accounts IH] using rev_ind;
    intros Hsub.
  - cbn. rewrite <- (map_id stored) at 1. apply map_ext. intros record.
    destruct (decide _) as [Hin|]; [|reflexivity].
    by apply elem_of_nil in Hin.
  - unfold rotate in *. rewrite fold_left_app. cbn [fold_left].
    rewrite IH by (intros account Hin; apply Hsub, elem_of_app; by left).
    clear IH.
    assert (Ha : a ∈ stored) by (apply Hsub, elem_of_app; right; by left).
    assert (Hmem : forall record, KeyStore.id record <> KeyStore.id a ->
              (KeyStore.id record ∈ map KeyStore.id (accounts ++ [a]))
              <-> (KeyStore.id record ∈ map KeyStore.id accounts)).
    { intros record Hne. rewrite map_app, elem_of_app. cbn [map].
      rewrite list_elem_of_singleton. tauto. }
    assert (Hlast : KeyStore.id a ∈ map KeyStore.id (accounts ++ [a])).
    { rewrite map_app, elem_of_app. right. by left. }
    destruct (reseal currentPassword newPassword a) as [a'|] eqn:Hreseal.
    + unfold Store.update. rewrite map_map. apply map_ext_in.
      intros record Hin%list_elem_of_In.
      destruct (decide (KeyStore.id record = KeyStore.id a)) as [Heq|Hne].
      * assert (record = a) as -> by (by apply (unique_by_id stored)).
        rewrite (decide_True (P := _ ∈ map _ (accounts ++ [a])))
          by exact Hlast.
        rewrite Hreseal. cbn [default from_option id].
        destruct (decide (_ ∈ map _ accounts)).
        -- rewrite (reseal_id _ _ _ _ Hreseal). by rewrite decide_True.
        -- by rewrite decide_True.
      * destruct (decide (_ ∈ map _ accounts)) as [Hin'|Hout].
        -- rewrite (decide_True (P := _ ∈ map _ (accounts ++ [a])))
             by (by apply Hmem).
           destruct (reseal _ _ record) as [r'|] eqn:Hr;
             cbn [default from_option id].
           ++ rewrite (reseal_id _ _ _ _ Hr). by rewrite decide_False.
           ++ by rewrite decide_False.
        -- rewrite (decide_False (P := _ ∈ map _ (accounts ++ [a])))
             by (by rewrite Hmem).
           by rewrite decide_False.
    + apply map_ext_in. intros record Hin%list_elem_of_In.
      destruct (decide (KeyStore.id record = KeyStore.id a)) as [Heq|Hne].
      * assert (record = a) as -> by (by apply (unique_by_id stored)).
        rewrite (decide_True (P := _ ∈ map _ (accounts ++ [a])))
          by exact Hlast.
        rewrite Hreseal.
        by destruct (decide (_ ∈ map _ accounts)).
      * destruct (decide (_ ∈ map _ accounts)) as [Hin'|Hout].
        -- by rewrite (decide_True (P := _ ∈ map _ (accounts ++ [a])))
             by (by apply Hmem).
        -- by rewrite (decide_False (P := _ ∈ map _ (accounts ++ [a])))
             by (by rewrite Hmem).
Qed.

(** C1, amended. When the record of [accountId] opens under the
    current password and some derived record of the batch does not,
    [resetPassword] returns [KeyStoreError] and undoes nothing: the
    top-level record and the derived records before the first
    failing one stay rewritten under the new password (the key store
    is the initial one with their updates applied in order), later
    records are not touched, and the cached password is unchanged.
    When no id is repeated in the key store, this is the key store
    with exactly those records resealed, each in its place. *)
Theorem resetPassword_failure_keeps_updates
    k currentPassword newPassword accountId top text done bad rest :
  Store.getRecord Key.id (VString accountId) (KeyRing._keyStore k)
  = Some top ->
  Crypto.decrypt top currentPassword = Some text ->
  Store.getRecords Key.parentId (VString accountId) (KeyRing._keyStore k)
  = (done ++ bad :: rest)%list ->
  Forall (fun account => is_Some (Crypto.decrypt account currentPassword))
    done ->
  Crypto.decrypt bad currentPassword = None ->
  KeyRing.resetPassword currentPassword newPassword accountId k
  = (Return (Result.err ResetPasswordError.KeyStoreError),
     KeyRing.with_keyStore
       (rotate currentPassword newPassword (top :: done)) k)
  /\ (NoDup (map KeyStore.id (KeyRing._keyStore k)) ->
      rotate currentPassword newPassword (top :: done) (KeyRing._keyStore k)
      = map (fun record =>
               if decide (KeyStore.id record
                            ∈ map KeyStore.id (top :: done))
               then default record
                      (reseal currentPassword newPassword record)
               else record)
            (KeyRing._keyStore k)).
Proof.
  intros Htop Htext Hbatch Hdone Hbad. split.
  - unfold KeyRing.resetPassword, KeyRing.bind at 1.
    rewrite checkPassword_reads. unfold passwordOk. cbn [VOption].
    rewrite Htop, Htext.
    rewrite bool_decide_eq_true_2 by eauto. cbn [negb].
    unfold KeyRing.bind at 1 2, KeyRing.gets. rewrite Htop, Hbatch.
    unfold KeyRing.try_catch, KeyRing.bind at 1.
    rewrite (reencrypt_stops _ _ (top :: done) bad rest k);
      [reflexivity| |exact Hbad].
    constructor; [eauto|exact Hdone].
  - intros Hnd. apply rotate_unique_ids; [exact Hnd|].
    intros account [->|Hin]%elem_of_cons.
    + by apply getRecord_Some in Htop as [Htop _].
    + assert (Hin' : account ∈ Store.getRecords Key.parentId
                       (VString accountId) (KeyRing._keyStore k)).
      { rewrite Hbatch. apply elem_of_app. by left. }
      by apply elem_of_getRecords in Hin' as [Hin' _].
Qed.

(** *** Calls that are not awaited *)

Lemma appends_app (waiting more : list KeyRing.Deferred) :
  appends (waiting ++ more) = (appends waiting ++ appends more)%list.
Proof. apply omap_app. Qed.

Lemma resume_reads d k :
  KeyRing._keyStore (KeyRing.resume d k)
  = (KeyRing._keyStore k ++ appends [d])%list
  /\ KeyRing._password (KeyRing.resume d k) = KeyRing._password k
  /\ KeyRing._status (KeyRing.resume d k) = KeyRing._status k
  /\ KeyRing.activeAccountStore (KeyRing.resume d k)
     = KeyRing.activeAccountStore k
  /\ KeyRing.sdk (KeyRing.resume d k) = KeyRing.sdk k
  /\ KeyRing.chainId (KeyRing.resume d k) = KeyRing.chainId k
  /\ KeyRing.pending (KeyRing.resume d k) = KeyRing.pending k.
Proof.
  destruct d as [store id|state]; destruct k; cbn.
  - rewrite app_nil_r. repeat split.
  - repeat split.
Qed.

Lemma resume_all_reads waiting k :
  let k' := fold_left (fun k d => KeyRing.resume d k) waiting k in
  KeyRing._keyStore k' = (KeyRing._keyStore k ++ appends waiting)%list
  /\ KeyRing._password k' = KeyRing._password k
  /\ KeyRing._status k' = KeyRing._status k
  /\ KeyRing.activeAccountStore k' = KeyRing.activeAccountStore k
  /\ KeyRing.sdk k' = KeyRing.sdk k
  /\ KeyRing.chainId k' = KeyRing.chainId k
  /\ KeyRing.pending k' = KeyRing.pending k.
Proof.
  cbv zeta. revert k. induction waiting as [|d waiting IH]; intros k.
  - cbn. rewrite app_nil_r. repeat split.
  - cbn [fold_left].
    destruct (IH (KeyRing.resume d k)) as (-> & -> & -> & -> & -> & -> & ->).
    destruct (resume_reads d k) as (-> & -> & -> & -> & -> & -> & ->).
    change (d :: waiting) with ([d] ++ waiting)%list.
    rewrite appends_app, app_assoc. repeat split.
Qed.

(** Once the pending writes have landed, the key store holds the
    records that waited, after those it held; the password, the
    status, the active id and the transaction builder are as they
    were, and nothing is pending. *)
Lemma settle_reads k :
  KeyRing._keyStore (KeyRing.settle k)
  = (KeyRing._keyStore k ++ appends (KeyRing.pending k))%list
  /\ KeyRing._password (KeyRing.settle k) = KeyRing._password k
  /\ KeyRing._status (KeyRing.settle k) = KeyRing._status k
  /\ KeyRing.activeAccountStore (KeyRing.settle k)
     = KeyRing.activeAccountStore k
  /\ KeyRing.sdk (KeyRing.settle k) = KeyRing.sdk k
  /\ KeyRing.chainId (KeyRing.settle k) = KeyRing.chainId k
  /\ KeyRing.pending (KeyRing.settle k) = [].
Proof.
  unfold KeyRing.settle.
  destruct (resume_all_reads (KeyRing.pending k)
              (KeyRing.with_pending (fun _ => []) k))
    as (-> & -> & -> & -> & -> & -> & ->).
  by destruct k.
Qed.

Lemma settle_keyStore k :
  KeyRing._keyStore (KeyRing.settle k)
  = (KeyRing._keyStore k ++ appends (KeyRing.pending k))%list.
Proof. apply settle_reads. Qed.

(** With nothing pending, nothing lands. *)
Lemma settle_nothing k : KeyRing.pending k = [] -> KeyRing.settle k = k.
Proof. unfold KeyRing.settle. destruct k. cbn. by intros ->. Qed.

(** What more is pending lands after what was pending before. *)
Lemma settle_more k k' more :
  KeyRing._keyStore k' = KeyRing._keyStore k ->
  KeyRing.pending k' = (KeyRing.pending k ++ more)%list ->
  KeyRing._keyStore (KeyRing.settle k')
  = (KeyRing._keyStore (KeyRing.settle k) ++ appends more)%list.
Proof.
  intros Hstore Hpending.
  by rewrite !settle_keyStore, Hstore, Hpending, appends_app, app_assoc.
Qed.

(** *** Deriving *)

(** What a successful [deriveAccount] returns and leaves behind: the
    stores are as they were, and the snapshot of the transaction
    builder and the new record wait to be written. *)
Lemma deriveAccount_run k path type alias password parent seed
    id address text owner :
  KeyRing.truthy (KeyRing._password k) = Some password ->
  Store.getRecord Key.id (VOption (KeyRing.activeAccountStore k))
    (KeyRing._keyStore k) = Some parent ->
  seedOf parent password = Some seed ->
  childFields type seed path (KeyStore.id parent) (KeyRing.chainId k)
  = Some (id, address, text, owner) ->
  exists k',
    KeyRing.deriveAccount path type alias k
    = (Return {| DerivedAccount.id := id;
                 DerivedAccount.address := address;
                 DerivedAccount.alias := alias;
                 DerivedAccount.chainId := KeyRing.chainId k;
                 DerivedAccount.parentId := Some (KeyStore.id parent);
                 DerivedAccount.path := path;
                 DerivedAccount.type := type |}, k')
    /\ KeyRing._keyStore k' = KeyRing._keyStore k
    /\ KeyRing.pending k'
       = (KeyRing.pending k
            ++ [KeyRing.Snapshot (default ∅ (KeyRing.sdkStore k))
                  (KeyStore.id parent);
                KeyRing.Append
                  (Crypto.encrypt
                    {| CryptoArgs.alias := alias;
                       CryptoArgs.address := address;
                       CryptoArgs.owner := owner;
                       CryptoArgs.chainId := KeyRing.chainId k;
                       CryptoArgs.id := id;
                       CryptoArgs.parentId := Some (KeyStore.id parent);
                       CryptoArgs.password := password;
                       CryptoArgs.path := path;
                       CryptoArgs.text := text;
                       CryptoArgs.type := type |})])%list
    /\ KeyRing._password k' = KeyRing._password k
    /\ KeyRing._status k' = KeyRing._status k
    /\ KeyRing.activeAccountStore k' = KeyRing.activeAccountStore k
    /\ KeyRing.chainId k' = KeyRing.chainId k
    /\ KeyRing.sdkStore k' = KeyRing.sdkStore k.
Proof.
  intros Hpw Hparent Hseed Hchild. unfold seedOf in Hseed.
  destruct (Crypto.decrypt parent password) as [phrase|] eqn:Hphrase;
    simpl in Hseed; [|discriminate].
  destruct (from_phrase phrase) as [words|] eqn:Hwords;
    simpl in Hseed; [|discriminate].
  injection Hseed as <-.
  unfold KeyRing.deriveAccount.
  run. rewrite Hpw, Hparent. simpl. rewrite Hphrase. simpl.
  rewrite Hwords. simpl. unfold childFields in Hchild.
  destruct type;
    [destruct (KeyRing.deriveTransparentAccount _ _ _ _)
    |destruct (KeyRing.deriveTransparentAccount _ _ _ _)
    |destruct (KeyRing.deriveShieldedAccount _ _ _)];
    simpl in *; try discriminate;
    injection Hchild as <- <- <- <-;
    eexists; (split; [reflexivity|]); (split; [reflexivity|]);
    (split; [cbn; by rewrite <- app_assoc|]); repeat split.
Qed.

(** C2, amended. [deriveAccount] makes no duplicate check. On an
    unlocked keyring whose active parent opens under the cached
    password, with a derivation that succeeds, it returns the derived
    account and starts the append of its record, also when a record
    with the same id is already held. The append is not awaited: when
    the method returns the key store is as it was and the record
    waits behind what was pending before; once the pending writes
    have landed the key store holds both records. *)
Theorem deriveAccount_appends_duplicate
    k path type alias password parent phrase words
    id address text owner held :
  KeyRing.truthy (KeyRing._password k) = Some password ->
  Store.getRecord Key.id (VOption (KeyRing.activeAccountStore k))
    (KeyRing._keyStore k) = Some parent ->
  Crypto.decrypt parent password = Some phrase ->
  from_phrase phrase = Some words ->
  childFields type (to_seed words) path (KeyStore.id parent)
    (KeyRing.chainId k) = Some (id, address, text, owner) ->
  held ∈ KeyRing._keyStore k ->
  KeyStore.id held = id ->
  exists k',
    let record :=
      Crypto.encrypt
        {| CryptoArgs.alias := alias;
           CryptoArgs.address := address;
           CryptoArgs.owner := owner;
           CryptoArgs.chainId := KeyRing.chainId k;
           CryptoArgs.id := id;
           CryptoArgs.parentId := Some (KeyStore.id parent);
           CryptoArgs.password := password;
           CryptoArgs.path := path;
           CryptoArgs.text := text;
           CryptoArgs.type := type |} in
    KeyRing.deriveAccount path type alias k
    = (Return {| DerivedAccount.id := id;
                 DerivedAccount.address := address;
                 DerivedAccount.alias := alias;
                 DerivedAccount.chainId := KeyRing.chainId k;
                 DerivedAccount.parentId := Some (KeyStore.id parent);
                 DerivedAccount.path := path;
                 DerivedAccount.type := type |}, k')
    /\ KeyRing._keyStore k' = KeyRing._keyStore k
    /\ KeyRing.pending k'
       = (KeyRing.pending k
            ++ [KeyRing.Snapshot (default ∅ (KeyRing.sdkStore k))
                  (KeyStore.id parent);
                KeyRing.Append record])%list
    /\ KeyRing._keyStore (KeyRing.settle k')
       = (KeyRing._keyStore k ++ appends (KeyRing.pending k)
            ++ [record])%list.
Proof.
  intros Hpw Hparent Hphrase Hwords Hchild _ _.
  destruct (deriveAccount_run k path type alias password parent
              (to_seed words) id address text owner Hpw Hparent)
    as (k' & Hrun & Hstore & Hpending & _).
  - unfold seedOf. rewrite Hphrase. simpl. by rewrite Hwords.
  - exact Hchild.
  - exists k'. cbv zeta. split; [exact Hrun|]. split; [exact Hstore|].
    split; [exact Hpending|].
    rewrite (settle_more k k' _ Hstore Hpending), settle_keyStore.
    by rewrite <- app_assoc.
Qed.

(** *** The ids the keyring makes

    Every id comes from [getId] and is a printed uuid, never the empty
    string; the four methods that write the key store keep it free of
    empty ids. *)

Lemma string_app_nil (a b : string) : a +:+ b = "" -> a = "" /\ b = "".
Proof. destruct a; [by split|]. discriminate. Qed.

Lemma v5_nonempty name namespace : UUID.v5 name namespace <> "".
Proof.
  unfold UUID.v5, UUID.stringify. intros E.
  apply string_app_nil in E as [_ E].
  apply string_app_nil in E as [E _]. discriminate E.
Qed.

Lemma getId_nonempty name args : getId name args <> "".
Proof. apply v5_nonempty. Qed.

Lemma ids_nonempty_append k k' record :
  ids_nonempty k ->
  KeyRing._keyStore k' = (KeyRing._keyStore k ++ [record])%list ->
  KeyStore.id record <> "" ->
  ids_nonempty k'.
Proof.
  unfold ids_nonempty. intros Hk -> Hid.
  apply Forall_app. split; [exact Hk|]. by constructor.
Qed.

(** [storeMnemonic] either changes nothing, or returns true with the
    parent record appended under the id of phrase and rank. *)
Lemma storeMnemonic_effect k mnemonic password alias :
  let run := KeyRing.storeMnemonic mnemonic password alias k in
  (run.1 <> Return true /\ run.2 = k)
  \/ (exists record,
        run.1 = Return true
        /\ KeyRing._keyStore run.2 = (KeyRing._keyStore k ++ [record])%list
        /\ KeyStore.id record
           = getId (String.concat " " mnemonic)
               [ArgNumber (N.of_nat (length (KeyRing._keyStore k)))]).
Proof.
  cbv zeta. unfold KeyRing.storeMnemonic.
  destruct (decide (password = "")); [left; by split|].
  unfold KeyRing.addSecretKey, KeyRing.setActiveAccountId. run.
  destruct (from_phrase _) as [words|]; simpl; [|left; by split].
  destruct (coinType _) as [coin|]; simpl; [|left; by split].
  destruct (hd_derive _ _) as [sk|]; simpl; [|left; by split].
  right. eexists. split; [reflexivity|]. split; reflexivity.
Qed.

(** C7. With a password, a phrase the crypto package accepts, a chain
    of the registry and a root key, [storeMnemonic] returns true and
    appends the parent record, whose id is the uuid of
    phrase :: rank under the fixed namespace, rank being the number of
    records held before; it becomes the active id. The id depends on
    the phrase and the rank alone: any other run that stores the same
    words on a keyring with as many records, whatever the password and
    the alias, gives its record the same id. *)
Theorem storeMnemonic_parent_id k mnemonic password alias words coin sk :
  let phrase := String.concat " " mnemonic in
  let rank := N.of_nat (length (KeyRing._keyStore k)) in
  password <> "" ->
  from_phrase phrase = Some words ->
  coinType (KeyRing.chainId k) = Some coin ->
  hd_derive (to_seed words) ("m/44'/" +:+ dec coin +:+ "'/0'/0") = Some sk ->
  exists k' parentRecord,
    KeyRing.storeMnemonic mnemonic password alias k = (Return true, k')
    /\ KeyRing._keyStore k' = (KeyRing._keyStore k ++ [parentRecord])%list
    /\ KeyStore.id parentRecord
       = UUID.v5 (phrase +:+ "::" +:+ dec rank)
                 "9bfceade-37fe-11ed-acc0-a3da3461b38c"
    /\ KeyStore.parentId parentRecord = None
    /\ KeyRing.activeAccountStore k' = Some (KeyStore.id parentRecord)
    /\ (forall k2 password2 alias2,
          length (KeyRing._keyStore k2) = length (KeyRing._keyStore k) ->
          let again := KeyRing.storeMnemonic mnemonic password2 alias2 k2 in
          again.1 = Return true ->
          exists record2,
            KeyRing._keyStore again.2
            = (KeyRing._keyStore k2 ++ [record2])%list
            /\ KeyStore.id record2 = KeyStore.id parentRecord).
Proof.
  intros phrase rank Hpw Hwords Hcoin Hsk.
  assert (Hrun : exists k' parentRecord,
    KeyRing.storeMnemonic mnemonic password alias k = (Return true, k')
    /\ KeyRing._keyStore k' = (KeyRing._keyStore k ++ [parentRecord])%list
    /\ KeyStore.id parentRecord = getId phrase [ArgNumber rank]
    /\ KeyStore.parentId parentRecord = None
    /\ KeyRing.activeAccountStore k' = Some (KeyStore.id parentRecord)).
  { unfold KeyRing.storeMnemonic.
    destruct (decide (password = "")) as [|_]; [contradiction|].
    unfold KeyRing.addSecretKey, KeyRing.setActiveAccountId. run.
    fold phrase. rewrite Hwords. simpl. rewrite Hcoin. simpl.
    rewrite Hsk. simpl.
    eexists _, _. split; [reflexivity|]. simpl.
    split; [reflexivity|]. split; [reflexivity|]. split; reflexivity. }
  destruct Hrun as (k' & parentRecord & Hrun & Hstore & Hid & Hparent & Hactive).
  exists k', parentRecord.
  split; [exact Hrun|]. split; [exact Hstore|].
  split; [rewrite Hid; exact (getId_rendered1 _ _)|].
  split; [exact Hparent|]. split; [exact Hactive|].
  intros k2 password2 alias2 Hlen again Hagain.
  destruct (storeMnemonic_effect k2 mnemonic password2 alias2)
    as [[Hfail _]|(record2 & _ & Hstore2 & Hid2)]; [contradiction|].
  exists record2. split; [exact Hstore2|].
  rewrite Hid2, Hid. unfold rank. rewrite Hlen. reflexivity.
Qed.

Lemma deriveTransparentAccount_id seed path parentId chainId account :
  KeyRing.deriveTransparentAccount seed path parentId chainId = Some account ->
  DerivedAccountInfo.id account
  = getId "account"
      [ArgString parentId; ArgNumber (Bip44Path.account path);
       ArgNumber (Bip44Path.change path);
       ArgNumber (default 0%N (Bip44Path.index path))].
Proof.
  unfold KeyRing.deriveTransparentAccount.
  destruct (coinType _); [|discriminate].
  destruct (hd_derive _ _); [|discriminate].
  by intros [= <-].
Qed.

Lemma deriveShieldedAccount_Some_id seed path parentId account :
  KeyRing.deriveShieldedAccount seed path parentId = Some account ->
  DerivedShieldedAccountInfo.id account
  = getId "shielded-account"
      [ArgString parentId; ArgNumber (default 0%N (Bip44Path.index path))].
Proof.
  unfold KeyRing.deriveShieldedAccount.
  destruct (zip32_derive _ _); [|discriminate].
  by intros [= <-].
Qed.

(** [deriveAccount] does not write the key store before it returns.
    It leaves the pending writes as they are, or adds a snapshot and
    the append of one record, whose id comes from [getId] and whose
    type is the given one. *)
Lemma deriveAccount_effect k path type alias :
  let run := KeyRing.deriveAccount path type alias k in
  KeyRing._keyStore run.2 = KeyRing._keyStore k
  /\ (KeyRing.pending run.2 = KeyRing.pending k
      \/ exists store parentId record name args,
           KeyRing.pending run.2
           = (KeyRing.pending k
                ++ [KeyRing.Snapshot store parentId;
                    KeyRing.Append record])%list
           /\ KeyStore.id record = getId name args
           /\ KeyStore.type record = type).
Proof.
  cbv zeta. unfold KeyRing.deriveAccount. run.
  destruct (KeyRing.truthy _) as [password|]; simpl; [|by split; [|left]].
  destruct (Store.getRecord _ _ _) as [parent|]; simpl;
    [|by split; [|left]].
  destruct (Crypto.decrypt _ _) as [phrase|]; simpl; [|by split; [|left]].
  destruct (from_phrase _) as [words|]; simpl; [|by split; [|left]].
  destruct type.
  - destruct (KeyRing.deriveTransparentAccount _ _ _ _) as [a|] eqn:Ha;
      simpl; [|by split; [|left]].
    split; [reflexivity|]. right. eexists _, _, _, _, _.
    split; [by rewrite <- app_assoc|]. split; [|reflexivity].
    exact (deriveTransparentAccount_id _ _ _ _ _ Ha).
  - destruct (KeyRing.deriveTransparentAccount _ _ _ _) as [a|] eqn:Ha;
      simpl; [|by split; [|left]].
    split; [reflexivity|]. right. eexists _, _, _, _, _.
    split; [by rewrite <- app_assoc|]. split; [|reflexivity].
    exact (deriveTransparentAccount_id _ _ _ _ _ Ha).
  - destruct (KeyRing.deriveShieldedAccount _ _ _) as [a|] eqn:Ha;
      simpl; [|by split; [|left]].
    split; [reflexivity|]. right. eexists _, _, _, _, _.
    split; [by rewrite <- app_assoc|]. split; [|reflexivity].
    exact (deriveShieldedAccount_Some_id _ _ _ _ Ha).
Qed.

Lemma update_ids id state stored :
  KeyStore.id state = id ->
  map KeyStore.id (Store.update id state stored) = map KeyStore.id stored.
Proof.
  intros Hid. unfold Store.update. rewrite map_map. apply map_ext.
  intros record. destruct (decide _) as [Heq|]; congruence.
Qed.

Lemma reencrypt_ids currentPassword newPassword accounts k :
  map KeyStore.id
    (KeyRing._keyStore
       (KeyRing.reencrypt currentPassword newPassword accounts k).2)
  = map KeyStore.id (KeyRing._keyStore k).
Proof.
  revert k. induction accounts as [|account rest IH]; intros k;
    [reflexivity|].
  cbn [KeyRing.reencrypt]. unfold KeyRing.bind, KeyRing.lift_opt.
  destruct (Crypto.decrypt account currentPassword) as [text|];
    [|reflexivity].
  unfold KeyRing.ret, KeyRing.modify.
  specialize (IH (KeyRing.with_keyStore
                    (Store.update (KeyStore.id account)
                       (Crypto.encrypt
                          {| CryptoArgs.alias := KeyStore.alias account;
                             CryptoArgs.address := KeyStore.address account;
                             CryptoArgs.owner := KeyStore.owner account;
                             CryptoArgs.chainId := KeyStore.chainId account;
                             CryptoArgs.id := KeyStore.id account;
                             CryptoArgs.parentId := KeyStore.parentId account;
                             CryptoArgs.password := newPassword;
                             CryptoArgs.path := KeyStore.path account;
                             CryptoArgs.text := text;
                             CryptoArgs.type := KeyStore.type account |}))
                    k)).
  destruct (KeyRing.reencrypt _ _ rest _) as [[?|?] k'];
    cbn [snd] in *; rewrite IH; destruct k;
    unfold KeyRing.with_keyStore; fields; by rewrite update_ids.
Qed.

(** [resetPassword] keeps the ids of the key store, in order. *)
Lemma resetPassword_ids k currentPassword newPassword accountId :
  map KeyStore.id
    (KeyRing._keyStore
       (KeyRing.resetPassword currentPassword newPassword accountId k).2)
  = map KeyStore.id (KeyRing._keyStore k).
Proof.
  unfold KeyRing.resetPassword, KeyRing.bind at 1.
  rewrite checkPassword_reads.
  destruct (passwordOk _ _ _); cbn [negb]; [|reflexivity].
  unfold KeyRing.bind at 1 2, KeyRing.gets.
  destruct (Store.getRecord _ _ _) as [top|]; [|reflexivity].
  unfold KeyRing.try_catch, KeyRing.bind at 1.
  pose proof (reencrypt_ids currentPassword newPassword
                (top :: Store.getRecords Key.parentId (VString accountId)
                          (KeyRing._keyStore k)) k) as Hids.
  destruct (KeyRing.reencrypt _ _ _ _) as [[?|?] k']; cbn [snd] in Hids.
  - unfold KeyRing.bind, KeyRing.getActiveAccountId, KeyRing.gets,
      KeyRing.ret, KeyRing.modify.
    destruct (decide _); exact Hids.
  - exact Hids.
Qed.

(** [deleteAccount] adds no record. *)
Lemma deleteAccount_subset k accountId password record :
  record ∈ KeyRing._keyStore (KeyRing.deleteAccount accountId password k).2 ->
  record ∈ KeyRing._keyStore k.
Proof.
  destruct (passwordOk password (Some accountId) k) eqn:Hok.
  - rewrite (deleteAccount_run _ _ _ Hok). cbv zeta.
    destruct (decide _);
      cbn [KeyRing._keyStore KeyRing.with_keyStore KeyRing.with_password];
      by intros [Hin _]%elem_of_purge.
  - unfold KeyRing.deleteAccount, KeyRing.bind.
    rewrite checkPassword_reads, Hok. by intros Hin.
Qed.

Lemma ids_nonempty_storeMnemonic k mnemonic password alias :
  ids_nonempty k ->
  ids_nonempty (KeyRing.storeMnemonic mnemonic password alias k).2.
Proof.
  intros Hk.
  destruct (storeMnemonic_effect k mnemonic password alias)
    as [[_ ->]|(record & _ & Hstore & Hid)]; [exact Hk|].
  apply (ids_nonempty_append k _ record Hk Hstore).
  rewrite Hid. apply getId_nonempty.
Qed.

Lemma ids_nonempty_deriveAccount k path type alias :
  ids_nonempty k ->
  ids_nonempty (KeyRing.deriveAccount path type alias k).2.
Proof.
  unfold ids_nonempty.
  by destruct (deriveAccount_effect k path type alias) as [-> _].
Qed.

Lemma ids_nonempty_resetPassword k currentPassword newPassword accountId :
  ids_nonempty k ->
  ids_nonempty
    (KeyRing.resetPassword currentPassword newPassword accountId k).2.
Proof.
  unfold ids_nonempty. intros Hk.
  apply (proj1 (List.Forall_map KeyStore.id (fun id => id <> "") _)).
  rewrite resetPassword_ids.
  by apply (proj2 (List.Forall_map KeyStore.id (fun id => id <> "") _)).
Qed.

Lemma ids_nonempty_deleteAccount k accountId password :
  ids_nonempty k ->
  ids_nonempty (KeyRing.deleteAccount accountId password k).2.
Proof.
  unfold ids_nonempty. rewrite !Forall_forall. intros Hk record Hin.
  by apply Hk, (deleteAccount_subset k accountId password).
Qed.

(** *** The key stores the keyring can hold

    Whatever the keyring is led through from an empty key store,
    calls and landings of pending writes in any order, no record it
    holds and no record that waits to be appended has the empty
    string as id. *)

Lemma reencrypt_pending currentPassword newPassword accounts k :
  KeyRing.pending
    (KeyRing.reencrypt currentPassword newPassword accounts k).2
  = KeyRing.pending k.
Proof.
  revert k. induction accounts as [|account rest IH]; intros k;
    [reflexivity|].
  cbn [KeyRing.reencrypt]. unfold KeyRing.bind, KeyRing.lift_opt.
  destruct (Crypto.decrypt account currentPassword) as [text|];
    [|reflexivity].
  unfold KeyRing.ret, KeyRing.modify.
  match goal with
  | |- context [KeyRing.reencrypt _ _ rest ?k1] => specialize (IH k1)
  end.
  destruct (KeyRing.reencrypt _ _ rest _) as [[?|?] k'];
    cbn [snd] in *; by rewrite IH.
Qed.

Lemma resetPassword_pending k currentPassword newPassword accountId :
  KeyRing.pending
    (KeyRing.resetPassword currentPassword newPassword accountId k).2
  = KeyRing.pending k.
Proof.
  unfold KeyRing.resetPassword, KeyRing.bind at 1.
  rewrite checkPassword_reads.
  destruct (passwordOk _ _ _); cbn [negb]; [|reflexivity].
  unfold KeyRing.bind at 1 2, KeyRing.gets.
  destruct (Store.getRecord _ _ _) as [top|]; [|reflexivity].
  unfold KeyRing.try_catch, KeyRing.bind at 1.
  pose proof (reencrypt_pending currentPassword newPassword
                (top :: Store.getRecords Key.parentId (VString accountId)
                          (KeyRing._keyStore k)) k) as Hpending.
  destruct (KeyRing.reencrypt _ _ _ _) as [[?|?] k']; cbn [snd] in Hpending.
  - unfold KeyRing.bind, KeyRing.getActiveAccountId, KeyRing.gets,
      KeyRing.ret, KeyRing.modify.
    destruct (decide _); exact Hpending.
  - exact Hpending.
Qed.

Lemma storeMnemonic_pending k mnemonic password alias :
  KeyRing.pending (KeyRing.storeMnemonic mnemonic password alias k).2
  = KeyRing.pending k.
Proof.
  unfold KeyRing.storeMnemonic.
  destruct (decide (password = "")); [reflexivity|].
  unfold KeyRing.addSecretKey, KeyRing.setActiveAccountId. run.
  destruct (from_phrase _) as [words|]; simpl; [|reflexivity].
  destruct (coinType _) as [coin|]; simpl; [|reflexivity].
  destruct (hd_derive _ _) as [sk|]; simpl; reflexivity.
Qed.

Lemma deleteAccount_pending k accountId password :
  KeyRing.pending (KeyRing.deleteAccount accountId password k).2
  = KeyRing.pending k.
Proof.
  destruct (passwordOk password (Some accountId) k) eqn:Hok.
  - rewrite (deleteAccount_run _ _ _ Hok). cbv zeta.
    by destruct (decide _).
  - unfold KeyRing.deleteAccount, KeyRing.bind.
    by rewrite checkPassword_reads, Hok.
Qed.

Lemma step_ids_nonempty k k' :
  step k k' ->
  ids_nonempty k /\ pending_ids_nonempty k ->
  ids_nonempty k' /\ pending_ids_nonempty k'.
Proof.
  unfold pending_ids_nonempty.
  intros Hstep [Hheld Hwaiting]. destruct Hstep.
  - by destruct k.
  - unfold KeyRing.unlock, KeyRing.bind. rewrite checkPassword_reads.
    destruct (passwordOk _ _ _); by destruct k.
  - unfold KeyRing.setActiveAccountId. run.
    by destruct k as [? ? ? ? [?|] ? ? ?].
  - split; [by apply ids_nonempty_resetPassword|].
    by rewrite resetPassword_pending.
  - split; [by apply ids_nonempty_storeMnemonic|].
    by rewrite storeMnemonic_pending.
  - split; [by apply ids_nonempty_deriveAccount|].
    destruct (deriveAccount_effect k path type alias)
      as [_ [->|(store & parentId & record & name & args
                 & -> & Hid & _)]]; [exact Hwaiting|].
    rewrite appends_app. apply Forall_app. split; [exact Hwaiting|].
    constructor; [|constructor]. rewrite Hid. apply getId_nonempty.
  - split; [by apply ids_nonempty_deleteAccount|].
    by rewrite deleteAccount_pending.
  - by destruct k.
  - unfold KeyRing.resumeNext.
    destruct (KeyRing.pending k) as [|[store id|state] waiting] eqn:Hpending;
      [by rewrite Hpending|by destruct k|].
    apply Forall_cons in Hwaiting as [Hstate Hwaiting].
    destruct k. split; [|exact Hwaiting].
    apply Forall_app. split; [exact Hheld|]. by constructor.
Qed.

Lemma reachable_ids_nonempty k :
  reachable k -> ids_nonempty k /\ pending_ids_nonempty k.
Proof.
  induction 1 as [k Hstore Hpending|k k' _ IH Hstep].
  - unfold ids_nonempty, pending_ids_nonempty.
    rewrite Hstore, Hpending. by split.
  - by apply (step_ids_nonempty k k').
Qed.

(** Landing the pending writes one by one settles them. *)
Lemma settle_resumeNext k :
  KeyRing.settle (KeyRing.resumeNext k) = KeyRing.settle k.
Proof.
  unfold KeyRing.settle, KeyRing.resumeNext.
  destruct k as [? ? ? ? ? ? ? [|[store id|state] waiting]]; reflexivity.
Qed.

Lemma reachable_settle k : reachable k -> reachable (KeyRing.settle k).
Proof.
  remember (length (KeyRing.pending k)) as n eqn:Hn.
  revert k Hn. induction n as [|n IH]; intros k Hn Hk.
  - rewrite settle_nothing; [exact Hk|].
    by destruct (KeyRing.pending k).
  - rewrite <- settle_resumeNext. apply IH.
    + unfold KeyRing.resumeNext.
      destruct k as [? ? ? ? ? ? ? [|[store id|state] waiting]];
        cbn in *; congruence.
    + by apply (reachable_step k), step_resumeNext.
Qed.

End Methods.

(** ** Further properties of the methods *)

Section More.
Context `{Collaborators}.

Implicit Types (k : KeyRing.t) (stored : list KeyStore.t).

(** *** Locking and unlocking *)

(** No record has an undefined id. *)
Lemma getRecord_id_undefined stored :
  Store.getRecord Key.id VUndefined stored = None.
Proof.
  induction stored as [|record stored IH]; [reflexivity|].
  unfold Store.getRecord in *. cbn [find].
  rewrite bool_decide_eq_false_2 by discriminate. exact IH.
Qed.

(** X1. After [lock] the keyring is locked whatever it was before:
    [isLocked] answers true, the status is Locked, [deriveAccount]
    throws "No password is set!" and changes nothing, and locking
    again changes nothing. The key store and the active id are
    kept. *)
Theorem lock_locks k path type alias :
  let locked := (KeyRing.lock k).2 in
  KeyRing.lock k = (Return tt, locked)
  /\ KeyRing.isLocked locked = (Return true, locked)
  /\ KeyRing.status locked = (Return Locked, locked)
  /\ KeyRing._keyStore locked = KeyRing._keyStore k
  /\ KeyRing.activeAccountStore locked = KeyRing.activeAccountStore k
  /\ KeyRing.deriveAccount path type alias locked
     = (Throw (Error "No password is set!"), locked)
  /\ KeyRing.lock locked = (Return tt, locked).
Proof. destruct k. repeat split. Qed.

(** X2. The password check does not look at the lock state: [lock]
    followed by [unlock] with a password that opens the active record
    gives a keyring that caches this password, has status Unlocked and
    is not locked; the key store and the active id are untouched. *)
Theorem unlock_after_lock k password :
  (KeyRing.checkPassword password None k).1 = Return true ->
  let k' := (KeyRing.unlock password (KeyRing.lock k).2).2 in
  KeyRing.unlock password (KeyRing.lock k).2 = (Return tt, k')
  /\ KeyRing._password k' = Some password
  /\ KeyRing._status k' = Unlocked
  /\ KeyRing.isLocked k' = (Return false, k')
  /\ KeyRing._keyStore k' = KeyRing._keyStore k
  /\ KeyRing.activeAccountStore k' = KeyRing.activeAccountStore k.
Proof.
  rewrite checkPassword_reads. cbn [fst]. intros [= Hok]. cbv zeta.
  assert (Hlocked : passwordOk password None (KeyRing.lock k).2 = true).
  { destruct k. exact Hok. }
  unfold KeyRing.unlock, KeyRing.bind.
  rewrite checkPassword_reads, Hlocked. destruct k. repeat split.
Qed.

(** X3. Without an active account id nothing is found, even when the
    key store holds records: the password check answers false for
    every password, [unlock] changes nothing, [queryAccounts] returns
    the empty list, and [deriveAccount] on a keyring that caches a
    password throws "Mnemonic is not set!". *)
Theorem without_active_account k password path type alias :
  KeyRing.activeAccountStore k = None ->
  KeyRing.checkPassword password None k = (Return false, k)
  /\ KeyRing.unlock password k = (Return tt, k)
  /\ KeyRing.queryAccounts k = (Return [], k)
  /\ (is_Some (KeyRing.truthy (KeyRing._password k)) ->
      KeyRing.deriveAccount path type alias k
      = (Throw (Error "Mnemonic is not set!"), k)).
Proof.
  intros Hactive.
  assert (Hcheck : KeyRing.checkPassword password None k = (Return false, k)).
  { rewrite checkPassword_reads. unfold passwordOk.
    rewrite Hactive. cbn [VOption]. by rewrite getRecord_id_undefined. }
  split; [exact Hcheck|]. split; [|split].
  - unfold KeyRing.unlock, KeyRing.bind. by rewrite Hcheck.
  - unfold KeyRing.queryAccounts. run. rewrite Hactive. cbn [VOption].
    by rewrite getRecord_id_undefined.
  - intros [cached Hcached]. unfold KeyRing.deriveAccount. run.
    rewrite Hcached, Hactive. cbn [VOption].
    by rewrite getRecord_id_undefined.
Qed.

(** *** Deleting *)

(** X4. If the password fails the check against the record of
    [accountId] (or no record has this id), [deleteAccount] returns
    [BadPassword] and removes nothing: the keyring is as it was. *)
Theorem deleteAccount_bad_password k accountId password :
  (KeyRing.checkPassword password (Some accountId) k).1 = Return false ->
  KeyRing.deleteAccount accountId password k
  = (Return (Result.err DeleteAccountError.BadPassword), k).
Proof.
  rewrite checkPassword_reads. cbn [fst]. intros [= Hok].
  unfold KeyRing.deleteAccount, KeyRing.bind.
  by rewrite checkPassword_reads, Hok.
Qed.

(** *** Deriving *)

(** X5. The two guards of [deriveAccount]. With no cached password, or
    with the empty one, it throws "No password is set!"; the empty
    password counts as none although [isLocked] then answers false.
    With a password but no record under the active id it throws
    "Mnemonic is not set!". The keyring is unchanged in both cases. *)
Theorem deriveAccount_guards k path type alias :
  (KeyRing._password k = None \/ KeyRing._password k = Some "" ->
   KeyRing.deriveAccount path type alias k
   = (Throw (Error "No password is set!"), k))
  /\ (KeyRing._password k = Some "" ->
      KeyRing.isLocked k = (Return false, k))
  /\ (is_Some (KeyRing.truthy (KeyRing._password k)) ->
      Store.getRecord Key.id (VOption (KeyRing.activeAccountStore k))
        (KeyRing._keyStore k) = None ->
      KeyRing.deriveAccount path type alias k
      = (Throw (Error "Mnemonic is not set!"), k)).
Proof.
  split; [|split].
  - intros Hpw. unfold KeyRing.deriveAccount. run.
    by destruct Hpw as [-> | ->].
  - intros Hpw. unfold KeyRing.isLocked, KeyRing.gets. by rewrite Hpw.
  - intros [cached Hcached] Hnone. unfold KeyRing.deriveAccount. run.
    by rewrite Hcached, Hnone.
Qed.

(** X6. Whatever goes wrong after the guards is reported alike: when
    the parent does not open under the cached password, its phrase is
    rejected, the chain is not in the registry or the wallet fails,
    [deriveAccount] throws "Could not decrypt mnemonic from password!"
    and the keyring is unchanged: no record is appended and the
    transaction builder is given no key. *)
Theorem deriveAccount_failure k path type alias password parent :
  KeyRing.truthy (KeyRing._password k) = Some password ->
  Store.getRecord Key.id (VOption (KeyRing.activeAccountStore k))
    (KeyRing._keyStore k) = Some parent ->
  (seed ← seedOf parent password;
   childFields type seed path (KeyStore.id parent) (KeyRing.chainId k))
  = None ->
  KeyRing.deriveAccount path type alias k
  = (Throw (Error "Could not decrypt mnemonic from password!"), k).
Proof.
  intros Hpw Hparent Hnone. unfold KeyRing.deriveAccount. run.
  rewrite Hpw, Hparent. simpl. unfold seedOf in Hnone.
  destruct (Crypto.decrypt parent password) as [phrase|]; simpl in *;
    [|reflexivity].
  destruct (from_phrase phrase) as [words|]; simpl in *; [|reflexivity].
  unfold childFields in Hnone.
  destruct type;
    [destruct (KeyRing.deriveTransparentAccount _ _ _ _)
    |destruct (KeyRing.deriveTransparentAccount _ _ _ _)
    |destruct (KeyRing.deriveShieldedAccount _ _ _)];
    simpl in *; try discriminate; reflexivity.
Qed.


Lemma getRecords_app key value stored more :
  Store.getRecords key value (stored ++ more)
  = (Store.getRecords key value stored
       ++ Store.getRecords key value more)%list.
Proof. unfold Store.getRecords. apply filter_app. Qed.

Lemma getRecord_None key value stored :
  (forall record, record ∈ stored -> Store.field key record <> value) ->
  Store.getRecord key value stored = None.
Proof.
  intros Hnone. unfold Store.getRecord.
  destruct (find _ stored) as [record|] eqn:Hfind; [|reflexivity].
  apply find_some in Hfind as [Hin Heq%bool_decide_eq_true_1].
  exfalso. by apply (Hnone record); [apply list_elem_of_In|].
Qed.

Lemma appends_derived store activeAccountId record :
  appends [KeyRing.Snapshot store activeAccountId; KeyRing.Append record]
  = [record].
Proof. reflexivity. Qed.



(** X8. Deleting the active account leaves a locked keyring that lists
    nothing: on a key store without empty ids, after [deleteAccount]
    of the active id under a password that passes the check,
    [isLocked] answers true, [queryAccounts] returns the empty list and
    [deriveAccount] throws "No password is set!". The active id itself
    is not cleared. *)
Theorem deleteAccount_active_then_locked k accountId password path type alias :
  ids_nonempty k ->
  KeyRing.activeAccountStore k = Some accountId ->
  (KeyRing.checkPassword password (Some accountId) k).1 = Return true ->
  let k' := (KeyRing.deleteAccount accountId password k).2 in
  KeyRing.deleteAccount accountId password k = (Return (Result.ok tt), k')
  /\ KeyRing.isLocked k' = (Return true, k')
  /\ KeyRing.activeAccountStore k' = Some accountId
  /\ KeyRing.queryAccounts k' = (Return [], k')
  /\ KeyRing.deriveAccount path type alias k'
     = (Throw (Error "No password is set!"), k').
Proof.
  intros Hids Hactive. rewrite checkPassword_reads. cbn [fst].
  intros [= Hok]. cbv zeta.
  destruct (passwordOk_true _ _ _ Hok) as (top & text & Htop & _).
  apply getRecord_Some in Htop as [Htop_in Htop_id].
  cbn [Store.field] in Htop_id. injection Htop_id as Htop_id.
  unfold ids_nonempty in Hids. rewrite Forall_forall in Hids.
  rewrite (deleteAccount_run _ _ _ Hok). cbv zeta.
  rewrite Hactive, decide_True by reflexivity. cbn [snd].
  set (ids := accountId :: _).
  assert (Hgone : Store.getRecord Key.id (VString accountId)
                    (purge ids (KeyRing._keyStore k)) = None).
  { apply getRecord_None. intros record [Hin Hne]%elem_of_purge.
    cbn [Store.field]. intros [= Heq]. apply (Hne accountId); [by left| |exact Heq].
    rewrite <- Htop_id. by apply Hids. }
  split; [reflexivity|]. split; [reflexivity|].
  split; [cbn; exact Hactive|]. split.
  - unfold KeyRing.queryAccounts. run. rewrite Hactive. cbn [VOption].
    by rewrite Hgone.
  - reflexivity.
Qed.

(** *** Rotating the password *)

Lemma reencrypt_all currentPassword newPassword accounts k :
  Forall (fun account => is_Some (Crypto.decrypt account currentPassword))
    accounts ->
  KeyRing.reencrypt currentPassword newPassword accounts k
  = (Return tt,
     KeyRing.with_keyStore (rotate currentPassword newPassword accounts) k).
Proof.
  intros Hall. revert k.
  induction Hall as [|account accounts [text Htext] _ IH]; intros k.
  - destruct k; reflexivity.
  - cbn [KeyRing.reencrypt]. unfold KeyRing.bind, KeyRing.lift_opt.
    rewrite Htext. unfold KeyRing.ret, KeyRing.modify. rewrite IH.
    destruct k. unfold KeyRing.with_keyStore. fields.
    rewrite rotate_cons. unfold reseal. rewrite Htext. reflexivity.
Qed.

Lemma resetPassword_run k currentPassword newPassword accountId top :
  Store.getRecord Key.id (VString accountId) (KeyRing._keyStore k)
  = Some top ->
  Forall (fun account => is_Some (Crypto.decrypt account currentPassword))
    (top :: Store.getRecords Key.parentId (VString accountId)
              (KeyRing._keyStore k)) ->
  KeyRing.resetPassword currentPassword newPassword accountId k
  = (Return (Result.ok tt),
     let k1 :=
       KeyRing.with_keyStore
         (rotate currentPassword newPassword
            (top :: Store.getRecords Key.parentId (VString accountId)
                      (KeyRing._keyStore k))) k in
     if decide (Some accountId = KeyRing.activeAccountStore k)
     then KeyRing.with_password (Some newPassword) k1 else k1).
Proof.
  intros Htop Hall.
  unfold KeyRing.resetPassword, KeyRing.bind at 1.
  rewrite checkPassword_reads. unfold passwordOk. cbn [VOption].
  rewrite Htop.
  rewrite bool_decide_eq_true_2 by (by inversion Hall). cbn [negb].
  unfold KeyRing.bind at 1 2, KeyRing.gets. rewrite Htop.
  unfold KeyRing.try_catch, KeyRing.bind at 1.
  rewrite (reencrypt_all _ _ _ k Hall).
  unfold KeyRing.bind, KeyRing.getActiveAccountId, KeyRing.gets,
    KeyRing.ret, KeyRing.modify.
  cbn [KeyRing.activeAccountStore KeyRing.with_keyStore].
  by destruct (decide _).
Qed.

Lemma elem_of_update id state stored record :
  record ∈ Store.update id state stored ->
  record = state \/ (record ∈ stored /\ KeyStore.id record <> id).
Proof.
  unfold Store.update. intros (old & -> & Hin)%list_elem_of_fmap.
  destruct (decide _); [by left|by right].
Qed.

(** After a loop in which every record opened, the records under an
    id of the batch are sealed under the new password and the others
    are as they were. *)
Lemma rotate_sealed currentPassword newPassword accounts stored record :
  Forall (fun account => is_Some (Crypto.decrypt account currentPassword))
    accounts ->
  record ∈ rotate currentPassword newPassword accounts stored ->
  (KeyStore.id record ∈ map KeyStore.id accounts
   /\ exists text, KeyStore.crypto record = seal newPassword text)
  \/ ((KeyStore.id record ∉ map KeyStore.id accounts) /\ record ∈ stored).
Proof.
  revert record. induction accounts as [|a accounts IH] using rev_ind;
    intros record Hall Hin.
  - right. split; [apply not_elem_of_nil|exact Hin].
  - apply Forall_app in Hall as [Hall Ha].
    apply Forall_cons in Ha as [[text Htext] _].
    unfold rotate in *. rewrite fold_left_app in Hin. cbn [fold_left] in Hin.
    unfold reseal at 1 in Hin. rewrite Htext in Hin.
    cbn [mbind option_bind] in Hin.
    apply elem_of_update in Hin as [->|[Hin Hne]].
    + left. cbn [Crypto.encrypt KeyStore.id KeyStore.crypto CryptoArgs.id
                 CryptoArgs.password CryptoArgs.text].
      split; [|by exists text].
      rewrite map_app, elem_of_app. right. by left.
    + destruct (IH record Hall Hin) as [[Hid Hsealed]|[Hid Hold]].
      * left. split; [|exact Hsealed].
        rewrite map_app, elem_of_app. by left.
      * right. split; [|exact Hold].
        rewrite map_app, elem_of_app. intros [Hin'|Hin']; [by apply Hid|].
        cbn [map] in Hin'. by apply list_elem_of_singleton in Hin'.
Qed.

Lemma getRecord_id_is_Some accountId stored :
  accountId ∈ map KeyStore.id stored ->
  exists record,
    Store.getRecord Key.id (VString accountId) stored = Some record.
Proof.
  intros (record & Hid & Hin)%list_elem_of_fmap.
  destruct (Store.getRecord Key.id (VString accountId) stored)
    as [found|] eqn:Hfind; [by exists found|].
  exfalso. unfold Store.getRecord in Hfind.
  pose proof (find_none _ _ Hfind record
                (proj1 (list_elem_of_In _ _) Hin)) as Hfalse.
  apply bool_decide_eq_false_1 in Hfalse. apply Hfalse.
  cbn [Store.field]. by rewrite Hid.
Qed.

(** X9. When the record of [accountId] and all records derived from
    it open under the current password, [resetPassword] returns ok.
    The cached password becomes the new one exactly when [accountId]
    is the active id: rotating another account leaves the cached
    password alone. The ids of the key store stay as they were, in
    order, and so do the active id and the status. *)
Theorem resetPassword_succeeds k currentPassword newPassword accountId :
  (KeyRing.checkPassword currentPassword (Some accountId) k).1
  = Return true ->
  Forall (fun account => is_Some (Crypto.decrypt account currentPassword))
    (Store.getRecords Key.parentId (VString accountId)
       (KeyRing._keyStore k)) ->
  let k' :=
    (KeyRing.resetPassword currentPassword newPassword accountId k).2 in
  KeyRing.resetPassword currentPassword newPassword accountId k
  = (Return (Result.ok tt), k')
  /\ KeyRing._password k'
     = (if decide (Some accountId = KeyRing.activeAccountStore k)
        then Some newPassword else KeyRing._password k)
  /\ map KeyStore.id (KeyRing._keyStore k')
     = map KeyStore.id (KeyRing._keyStore k)
  /\ KeyRing.activeAccountStore k' = KeyRing.activeAccountStore k
  /\ KeyRing._status k' = KeyRing._status k.
Proof.
  rewrite checkPassword_reads. cbn [fst]. intros [= Hok] Hderived.
  destruct (passwordOk_true _ _ _ Hok) as (top & text & Htop & Htext).
  assert (Hall : Forall
    (fun account => is_Some (Crypto.decrypt account currentPassword))
    (top :: Store.getRecords Key.parentId (VString accountId)
              (KeyRing._keyStore k))) by (constructor; eauto).
  cbv zeta. split; [|split; [|split]].
  - rewrite (resetPassword_run _ _ _ _ _ Htop Hall). reflexivity.
  - rewrite (resetPassword_run _ _ _ _ _ Htop Hall). cbv zeta.
    by destruct (decide _).
  - apply resetPassword_ids.
  - rewrite (resetPassword_run _ _ _ _ _ Htop Hall). cbv zeta.
    by destruct (decide _).
Qed.

(** X10. After a successful [resetPassword], when blobs open under the
    password they were sealed with, the password check of [accountId]
    passes with the new password, and every record of the account and
    of its derived accounts opens under it; when blobs open under no
    other password, the check fails with the old password, unless it
    is the new one. *)
Theorem resetPassword_changes_the_password
    k currentPassword newPassword accountId :
  opens_what_it_seals ->
  (KeyRing.checkPassword currentPassword (Some accountId) k).1
  = Return true ->
  Forall (fun account => is_Some (Crypto.decrypt account currentPassword))
    (Store.getRecords Key.parentId (VString accountId)
       (KeyRing._keyStore k)) ->
  let k' :=
    (KeyRing.resetPassword currentPassword newPassword accountId k).2 in
  KeyRing.checkPassword newPassword (Some accountId) k' = (Return true, k')
  /\ (forall record, record ∈ KeyRing._keyStore k' ->
        inBatch accountId record ->
        is_Some (Crypto.decrypt record newPassword))
  /\ (opens_under_one_password -> currentPassword <> newPassword ->
      KeyRing.checkPassword currentPassword (Some accountId) k'
      = (Return false, k')).
Proof.
  intros Hopens. rewrite checkPassword_reads. cbn [fst].
  intros [= Hok] Hderived.
  destruct (passwordOk_true _ _ _ Hok) as (top & text & Htop & Htext).
  assert (Hall : Forall
    (fun account => is_Some (Crypto.decrypt account currentPassword))
    (top :: Store.getRecords Key.parentId (VString accountId)
              (KeyRing._keyStore k))) by (constructor; eauto).
  cbv zeta. rewrite (resetPassword_run _ _ _ _ _ Htop Hall). cbv zeta.
  cbn [snd]. set (batch := top :: _) in *.
  remember (if decide _ then _ else _) as k' eqn:Hk'.
  assert (Hstore : KeyRing._keyStore k'
                   = rotate currentPassword newPassword batch
                       (KeyRing._keyStore k)).
  { rewrite Hk'. by destruct (decide _). }
  clear Hk'.
  pose proof (getRecord_Some _ _ _ _ Htop) as [Htop_in Htop_id].
  cbn [Store.field] in Htop_id. injection Htop_id as Htop_id.
  assert (Hsealed : forall record, record ∈ KeyRing._keyStore k' ->
            inBatch accountId record ->
            exists sealed, KeyStore.crypto record = seal newPassword sealed).
  { intros record Hin Hbatch. rewrite Hstore in Hin.
    destruct (rotate_sealed _ _ _ _ _ Hall Hin) as [[_ Hs]|[Hid Hold]];
      [exact Hs|].
    exfalso. apply Hid. destruct Hbatch as [Hrid|Hparent].
    - rewrite Hrid, <- Htop_id. subst batch. cbn [map]. by left.
    - subst batch. cbn [map]. right. apply list_elem_of_fmap.
      exists record. split; [reflexivity|].
      apply elem_of_getRecords. split; [exact Hold|].
      cbn [Store.field]. by rewrite Hparent. }
  assert (Hfound : exists record,
    Store.getRecord Key.id (VString accountId) (KeyRing._keyStore k')
    = Some record).
  { apply getRecord_id_is_Some. rewrite Hstore.
    assert (Hids : map KeyStore.id
                     (rotate currentPassword newPassword batch
                        (KeyRing._keyStore k))
                   = map KeyStore.id (KeyRing._keyStore k)).
    { pose proof (reencrypt_ids currentPassword newPassword batch k) as Hi.
      by rewrite (reencrypt_all _ _ _ k Hall) in Hi. }
    rewrite Hids, <- Htop_id. apply list_elem_of_fmap. by exists top. }
  destruct Hfound as [found Hfound].
  pose proof (getRecord_Some _ _ _ _ Hfound) as [Hfound_in Hfound_id].
  cbn [Store.field] in Hfound_id. injection Hfound_id as Hfound_id.
  destruct (Hsealed found Hfound_in (or_introl Hfound_id))
    as [sealed Hcrypto].
  split; [|split].
  - rewrite checkPassword_reads. unfold passwordOk. cbn [VOption].
    rewrite Hfound. unfold Crypto.decrypt. rewrite Hcrypto, Hopens.
    by rewrite bool_decide_eq_true_2 by eauto.
  - intros record Hin Hbatch.
    destruct (Hsealed record Hin Hbatch) as [t Ht].
    unfold Crypto.decrypt. rewrite Ht, Hopens. eauto.
  - intros Hone Hne. rewrite checkPassword_reads. unfold passwordOk.
    cbn [VOption]. rewrite Hfound. unfold Crypto.decrypt. rewrite Hcrypto.
    rewrite bool_decide_eq_false_2; [reflexivity|].
    intros Hsome. by apply Hone in Hsome.
Qed.

(** X11. Rotation keeps the secrets and the public fields. On a key
    store without repeated ids, when blobs open under the password
    they were sealed with, a successful [resetPassword] leaves every
    record in its place with the fields [queryAccounts] shows and its
    owner; a record of the account or of its derived accounts opens
    under the new password to the text it held under the current one,
    and every other record is untouched. *)
Theorem resetPassword_keeps_secrets
    k currentPassword newPassword accountId :
  opens_what_it_seals ->
  NoDup (map KeyStore.id (KeyRing._keyStore k)) ->
  (KeyRing.checkPassword currentPassword (Some accountId) k).1
  = Return true ->
  Forall (fun account => is_Some (Crypto.decrypt account currentPassword))
    (Store.getRecords Key.parentId (VString accountId)
       (KeyRing._keyStore k)) ->
  let k' :=
    (KeyRing.resetPassword currentPassword newPassword accountId k).2 in
  forall (i : nat) record,
    KeyRing._keyStore k !! i = Some record ->
    exists record',
      KeyRing._keyStore k' !! i = Some record'
      /\ KeyRing.plain record' = KeyRing.plain record
      /\ KeyStore.owner record' = KeyStore.owner record
      /\ (inBatch accountId record ->
          Crypto.decrypt record' newPassword
          = Crypto.decrypt record currentPassword)
      /\ (~ inBatch accountId record -> record' = record).
Proof.
  intros Hopens Hnd. rewrite checkPassword_reads. cbn [fst].
  intros [= Hok] Hderived.
  destruct (passwordOk_true _ _ _ Hok) as (top & text & Htop & Htext).
  assert (Hall : Forall
    (fun account => is_Some (Crypto.decrypt account currentPassword))
    (top :: Store.getRecords Key.parentId (VString accountId)
              (KeyRing._keyStore k))) by (constructor; eauto).
  cbv zeta. rewrite (resetPassword_run _ _ _ _ _ Htop Hall). cbv zeta.
  cbn [snd]. set (batch := top :: _) in *.
  pose proof (getRecord_Some _ _ _ _ Htop) as [Htop_in Htop_id].
  cbn [Store.field] in Htop_id. injection Htop_id as Htop_id.
  assert (Hsub : forall account, account ∈ batch ->
            account ∈ KeyRing._keyStore k /\ inBatch accountId account).
  { intros account [->|Hin]%elem_of_cons.
    - split; [exact Htop_in|by left].
    - apply elem_of_getRecords in Hin as [Hin Hparent]. split; [exact Hin|].
      right. cbn [Store.field] in Hparent.
      destruct (KeyStore.parentId account); cbn in Hparent; congruence. }
  assert (Hstore :
    KeyRing._keyStore
      (if decide (Some accountId = KeyRing.activeAccountStore k)
       then KeyRing.with_password (Some newPassword)
              (KeyRing.with_keyStore
                 (rotate currentPassword newPassword batch) k)
       else KeyRing.with_keyStore
              (rotate currentPassword newPassword batch) k)
    = map (fun record =>
             if decide (KeyStore.id record ∈ map KeyStore.id batch)
             then default record
                    (reseal currentPassword newPassword record)
             else record)
          (KeyRing._keyStore k)).
  { rewrite <- (rotate_unique_ids _ _ _ _ Hnd);
      [by destruct (decide _)|].
    intros account Hin. by apply Hsub. }
  rewrite Hstore. clear Hstore.
  intros i record Hlookup.
  assert (Hrec_in : record ∈ KeyRing._keyStore k)
    by (apply list_elem_of_lookup; eauto).
  eexists. split.
  { change (map ?f ?l) with (f <$> l). rewrite list_lookup_fmap, Hlookup.
    reflexivity. }
  destruct (decide (KeyStore.id record ∈ map KeyStore.id batch))
    as [Hid|Hid].
  - apply list_elem_of_fmap in Hid as (account & Hid & Hacc).
    destruct (Hsub account Hacc) as [Hacc_in Hacc_batch].
    assert (record = account) as ->
      by (by apply (unique_by_id (KeyRing._keyStore k))).
    rewrite Forall_forall in Hall.
    destruct (Hall account Hacc) as [secret Hsecret].
    unfold reseal. rewrite Hsecret. cbn [mbind option_bind default from_option id].
    split; [reflexivity|]. split; [reflexivity|]. split.
    + intros _. unfold Crypto.decrypt at 1.
      cbn [Crypto.encrypt KeyStore.crypto CryptoArgs.password
           CryptoArgs.text].
      by rewrite Hopens.
    + intros Hout. by exfalso.
  - split; [reflexivity|]. split; [reflexivity|]. split; [|reflexivity].
    intros Hbatch. exfalso. apply Hid. destruct Hbatch as [Hrid|Hparent].
    + rewrite Hrid, <- Htop_id. subst batch. cbn [map]. by left.
    + subst batch. cbn [map]. right. apply list_elem_of_fmap.
      exists record. split; [reflexivity|].
      apply elem_of_getRecords. split; [exact Hrec_in|].
      cbn [Store.field]. by rewrite Hparent.
Qed.

(** X12. An empty new password is accepted: after a successful
    [resetPassword] of the active account to the empty password the
    keyring caches it, [isLocked] answers false, and [deriveAccount]
    throws "No password is set!". *)
Theorem resetPassword_to_empty_password
    k currentPassword accountId path type alias :
  KeyRing.activeAccountStore k = Some accountId ->
  (KeyRing.checkPassword currentPassword (Some accountId) k).1
  = Return true ->
  Forall (fun account => is_Some (Crypto.decrypt account currentPassword))
    (Store.getRecords Key.parentId (VString accountId)
       (KeyRing._keyStore k)) ->
  let k' := (KeyRing.resetPassword currentPassword "" accountId k).2 in
  KeyRing.resetPassword currentPassword "" accountId k
  = (Return (Result.ok tt), k')
  /\ KeyRing._password k' = Some ""
  /\ KeyRing.isLocked k' = (Return false, k')
  /\ KeyRing.deriveAccount path type alias k'
     = (Throw (Error "No password is set!"), k').
Proof.
  intros Hactive. rewrite checkPassword_reads. cbn [fst].
  intros [= Hok] Hderived.
  destruct (passwordOk_true _ _ _ Hok) as (top & text & Htop & Htext).
  assert (Hall : Forall
    (fun account => is_Some (Crypto.decrypt account currentPassword))
    (top :: Store.getRecords Key.parentId (VString accountId)
              (KeyRing._keyStore k))) by (constructor; eauto).
  cbv zeta. rewrite (resetPassword_run _ _ _ _ _ Htop Hall). cbv zeta.
  rewrite Hactive, decide_True by reflexivity.
  repeat split.
Qed.

(** *** Importing a phrase *)

Lemma storeMnemonic_run k mnemonic password alias words coin sk :
  password <> "" ->
  from_phrase (String.concat " " mnemonic) = Some words ->
  coinType (KeyRing.chainId k) = Some coin ->
  hd_derive (to_seed words) ("m/44'/" +:+ dec coin +:+ "'/0'/0") = Some sk ->
  let record := parentRecord mnemonic password alias sk k in
  let builder := add_key (clear_storage (KeyRing.sdk k)) sk password alias in
  KeyRing.storeMnemonic mnemonic password alias k
  = (Return true,
     {| KeyRing._keyStore := KeyRing._keyStore k ++ [record];
        KeyRing._password := Some password;
        KeyRing._status := KeyRing._status k;
        KeyRing.activeAccountStore := Some (KeyStore.id record);
        KeyRing.sdkStore :=
          Some (<[KeyStore.id record := encode builder]>
                  (default ∅ (KeyRing.sdkStore k)));
        KeyRing.sdk := decode builder (encode builder);
        KeyRing.chainId := KeyRing.chainId k;
        KeyRing.pending := KeyRing.pending k |}).
Proof.
  intros Hpw Hwords Hcoin Hsk. cbv zeta. unfold KeyRing.storeMnemonic.
  destruct (decide (password = "")) as [|_]; [contradiction|].
  unfold KeyRing.addSecretKey, KeyRing.setActiveAccountId. run.
  rewrite Hwords. simpl. rewrite Hcoin. simpl. rewrite Hsk. simpl.
  rewrite lookup_insert_eq. reflexivity.
Qed.

(** X13. What a successful [storeMnemonic] sets up besides the record:
    the password is cached, so that [isLocked] answers false, and the
    new id is the active one, while the status is left as it was. The
    transaction builder is cleared and given the root key; its
    snapshot goes into the snapshot store under the new id, beside the
    snapshots already there, and the builder is read back from it. *)
Theorem storeMnemonic_sets_up k mnemonic password alias words coin sk :
  password <> "" ->
  from_phrase (String.concat " " mnemonic) = Some words ->
  coinType (KeyRing.chainId k) = Some coin ->
  hd_derive (to_seed words) ("m/44'/" +:+ dec coin +:+ "'/0'/0") = Some sk ->
  let k' := (KeyRing.storeMnemonic mnemonic password alias k).2 in
  let id := KeyStore.id (parentRecord mnemonic password alias sk k) in
  let builder := add_key (clear_storage (KeyRing.sdk k)) sk password alias in
  KeyRing.isLocked k' = (Return false, k')
  /\ KeyRing._password k' = Some password
  /\ KeyRing.getActiveAccountId k' = (Return (Some id), k')
  /\ KeyRing._status k' = KeyRing._status k
  /\ KeyRing.sdk k' = decode builder (encode builder)
  /\ (exists snapshots,
        KeyRing.sdkStore k' = Some snapshots
        /\ snapshots !! id = Some (encode builder)
        /\ forall other, other <> id ->
             snapshots !! other = default ∅ (KeyRing.sdkStore k) !! other).
Proof.
  intros Hpw Hwords Hcoin Hsk. cbv zeta.
  rewrite (storeMnemonic_run _ _ _ _ _ _ _ Hpw Hwords Hcoin Hsk).
  cbv zeta. cbn [snd]. repeat split.
  eexists. split; [reflexivity|]. split.
  - apply lookup_insert_eq.
  - intros other Hother. by apply lookup_insert_ne.
Qed.

(** X14. After a successful [storeMnemonic], when no record held before
    has the new id as id or as parent id, [queryAccounts] returns
    exactly the new parent: one account of type Mnemonic, without
    parent id, under the given alias, with path 0/0. *)
Theorem storeMnemonic_then_queryAccounts
    k mnemonic password alias words coin sk :
  password <> "" ->
  from_phrase (String.concat " " mnemonic) = Some words ->
  coinType (KeyRing.chainId k) = Some coin ->
  hd_derive (to_seed words) ("m/44'/" +:+ dec coin +:+ "'/0'/0") = Some sk ->
  let k' := (KeyRing.storeMnemonic mnemonic password alias k).2 in
  let id := KeyStore.id (parentRecord mnemonic password alias sk k) in
  (forall record, record ∈ KeyRing._keyStore k ->
     KeyStore.id record <> id /\ KeyStore.parentId record <> Some id) ->
  KeyRing.queryAccounts k'
  = (Return [{| DerivedAccount.id := id;
                DerivedAccount.address := implicit sk;
                DerivedAccount.alias := alias;
                DerivedAccount.chainId := KeyRing.chainId k;
                DerivedAccount.parentId := None;
                DerivedAccount.path :=
                  {| Bip44Path.account := 0; Bip44Path.change := 0;
                     Bip44Path.index := None |};
                DerivedAccount.type := AccountType.Mnemonic |}], k').
Proof.
  intros Hpw Hwords Hcoin Hsk. cbv zeta.
  rewrite (storeMnemonic_run _ _ _ _ _ _ _ Hpw Hwords Hcoin Hsk).
  cbv zeta. cbn [snd]. intros Hfresh.
  set (record := parentRecord mnemonic password alias sk k) in *.
  unfold KeyRing.queryAccounts, KeyRing.bind, KeyRing.getActiveAccountId,
    KeyRing.gets, KeyRing.ret.
  cbn [KeyRing.activeAccountStore KeyRing._keyStore VOption].
  assert (Hfind : Store.getRecord Key.id (VString (KeyStore.id record))
                    (KeyRing._keyStore k ++ [record]) = Some record).
  { unfold Store.getRecord. clear -Hfresh.
    induction (KeyRing._keyStore k) as [|first rest IH].
    - cbn [app find]. by rewrite bool_decide_eq_true_2.
    - cbn [app find]. rewrite bool_decide_eq_false_2.
      + apply IH. intros r Hr. apply Hfresh. by right.
      + cbn [Store.field]. intros [= Heq].
        destruct (Hfresh first) as [Hne _]; [by left|]. by apply Hne. }
  assert (Hchildren : Store.getRecords Key.parentId
                        (VString (KeyStore.id record))
                        (KeyRing._keyStore k ++ [record]) = []).
  { rewrite getRecords_app. unfold Store.getRecords.
    cbn [filter list_filter]. rewrite decide_False by discriminate.
    rewrite app_nil_r. clear -Hfresh.
    induction (KeyRing._keyStore k) as [|first rest IH]; [reflexivity|].
    cbn [filter list_filter]. rewrite decide_False.
    + apply IH. intros r Hr. apply Hfresh. by right.
    + cbn [Store.field]. intros Heq.
      destruct (Hfresh first) as [_ Hne]; [by left|]. apply Hne.
      destruct (KeyStore.parentId first) as [p|]; cbn [VOption] in Heq;
        [|discriminate Heq].
      by injection Heq as ->. }
  rewrite Hfind, Hchildren. reflexivity.
Qed.

Lemma getRecord_last key value stored record :
  (forall held, held ∈ stored -> Store.field key held <> value) ->
  Store.field key record = value ->
  Store.getRecord key value (stored ++ [record]) = Some record.
Proof.
  intros Hfresh Hvalue. unfold Store.getRecord.
  induction stored as [|first rest IH].
  - cbn [app find]. by rewrite bool_decide_eq_true_2.
  - cbn [app find]. rewrite bool_decide_eq_false_2.
    + apply IH. intros held Hheld. apply Hfresh. by right.
    + apply Hfresh. by left.
Qed.

(** X15. The password given to [storeMnemonic] is the one that unlocks.
    After a successful [storeMnemonic], when blobs open under the
    password they were sealed with and no record held before has the
    new id, the password check on the active account passes with this
    password, and [lock] followed by [unlock] with it gives status
    Unlocked with the password cached. When blobs open under no other
    password, [unlock] with another password leaves the keyring
    locked. *)
Theorem storeMnemonic_then_unlock k mnemonic password alias words coin sk :
  opens_what_it_seals ->
  password <> "" ->
  from_phrase (String.concat " " mnemonic) = Some words ->
  coinType (KeyRing.chainId k) = Some coin ->
  hd_derive (to_seed words) ("m/44'/" +:+ dec coin +:+ "'/0'/0") = Some sk ->
  let k' := (KeyRing.storeMnemonic mnemonic password alias k).2 in
  let id := KeyStore.id (parentRecord mnemonic password alias sk k) in
  (forall record, record ∈ KeyRing._keyStore k -> KeyStore.id record <> id) ->
  let locked := (KeyRing.lock k').2 in
  KeyRing.checkPassword password None k' = (Return true, k')
  /\ KeyRing._status (KeyRing.unlock password locked).2 = Unlocked
  /\ KeyRing._password (KeyRing.unlock password locked).2 = Some password
  /\ (opens_under_one_password ->
      forall other, other <> password ->
        KeyRing.unlock other locked = (Return tt, locked)).
Proof.
  intros Hopens Hpw Hwords Hcoin Hsk. cbv zeta.
  rewrite (storeMnemonic_run _ _ _ _ _ _ _ Hpw Hwords Hcoin Hsk).
  cbv zeta. cbn [snd]. intros Hfresh.
  set (record := parentRecord mnemonic password alias sk k) in *.
  assert (Hfind : Store.getRecord Key.id (VString (KeyStore.id record))
                    (KeyRing._keyStore k ++ [record]) = Some record).
  { apply getRecord_last; [|reflexivity].
    intros held Hheld. cbn [Store.field]. intros [= Heq].
    by apply (Hfresh held). }
  assert (Hcrypto : KeyStore.crypto record
                    = seal password (String.concat " " mnemonic))
    by reflexivity.
  assert (Hcheck : forall kk p,
    KeyRing._keyStore kk = (KeyRing._keyStore k ++ [record])%list ->
    KeyRing.activeAccountStore kk = Some (KeyStore.id record) ->
    passwordOk p None kk
    = bool_decide (is_Some (unseal (seal password
                                      (String.concat " " mnemonic)) p))).
  { intros kk p Hstore Hactive. unfold passwordOk.
    rewrite Hstore, Hactive. cbn [VOption].
    rewrite Hfind. unfold Crypto.decrypt. by rewrite Hcrypto. }
  split; [|split; [|split]].
  - rewrite checkPassword_reads, Hcheck by reflexivity.
    rewrite Hopens. by rewrite bool_decide_eq_true_2 by eauto.
  - unfold KeyRing.unlock, KeyRing.bind.
    rewrite checkPassword_reads, Hcheck by reflexivity.
    rewrite Hopens. by rewrite bool_decide_eq_true_2 by eauto.
  - unfold KeyRing.unlock, KeyRing.bind.
    rewrite checkPassword_reads, Hcheck by reflexivity.
    rewrite Hopens. by rewrite bool_decide_eq_true_2 by eauto.
  - intros Hone other Hother. unfold KeyRing.unlock, KeyRing.bind.
    rewrite checkPassword_reads, Hcheck by reflexivity.
    rewrite bool_decide_eq_false_2; [reflexivity|].
    intros Hsome. by apply Hone in Hsome.
Qed.

(** *** Listings and balances *)

(** After a successful [deriveAccount] the new record is not found by
    its address as long as its append is pending, and is found by it
    once the pending writes have landed, when no record held or
    pending before has this address. The cached password stays. *)
Lemma deriveAccount_by_address
    k path type alias password parent seed id address text owner :
  KeyRing.truthy (KeyRing._password k) = Some password ->
  Store.getRecord Key.id (VOption (KeyRing.activeAccountStore k))
    (KeyRing._keyStore k) = Some parent ->
  seedOf parent password = Some seed ->
  childFields type seed path (KeyStore.id parent) (KeyRing.chainId k)
  = Some (id, address, text, owner) ->
  (forall held, held ∈ KeyRing._keyStore (KeyRing.settle k) ->
     KeyStore.address held <> address) ->
  let k' := (KeyRing.deriveAccount path type alias k).2 in
  Store.getRecord Key.address (VString address) (KeyRing._keyStore k')
  = None
  /\ Store.getRecord Key.address (VString address)
       (KeyRing._keyStore (KeyRing.settle k'))
     = Some (Crypto.encrypt
             {| CryptoArgs.alias := alias;
                CryptoArgs.address := address;
                CryptoArgs.owner := owner;
                CryptoArgs.chainId := KeyRing.chainId k;
                CryptoArgs.id := id;
                CryptoArgs.parentId := Some (KeyStore.id parent);
                CryptoArgs.password := password;
                CryptoArgs.path := path;
                CryptoArgs.text := text;
                CryptoArgs.type := type |})
  /\ KeyRing._password k' = KeyRing._password k
  /\ KeyRing._password (KeyRing.settle k') = KeyRing._password k.
Proof.
  intros Hpw Hparent Hseed Hchild Hfresh. cbv zeta.
  destruct (deriveAccount_run k path type alias password parent seed
              id address text owner Hpw Hparent Hseed Hchild)
    as (k' & Hrun & Hstore & Hpending & Hpw' & _).
  rewrite Hrun. cbn [snd].
  destruct (settle_reads k') as (Hsk' & Hpw'' & _).
  rewrite Hstore, Hpending, appends_app, app_assoc, <- settle_keyStore,
    appends_derived in Hsk'.
  split; [|split; [|split]].
  - rewrite Hstore. apply getRecord_None.
    intros held Hheld. cbn [Store.field]. intros [= Heq].
    apply (Hfresh held); [|exact Heq].
    rewrite settle_keyStore. apply elem_of_app. by left.
  - rewrite Hsk'. apply getRecord_last; [|reflexivity].
    intros held Hheld. cbn [Store.field]. intros [= Heq].
    by apply (Hfresh held).
  - exact Hpw'.
  - by rewrite Hpw''.
Qed.

(** X16. Deriving never adds a parent: whatever [deriveAccount] with
    type PrivateKey or ShieldedKeys does, succeed or throw,
    [queryParentAccounts] returns afterwards what it returned before,
    on the keyring as the method leaves it and also once the pending
    writes have landed. *)
Theorem deriveAccount_keeps_parents k path type alias :
  type <> AccountType.Mnemonic ->
  let k' := (KeyRing.deriveAccount path type alias k).2 in
  (KeyRing.queryParentAccounts k').1 = (KeyRing.queryParentAccounts k).1
  /\ (KeyRing.queryParentAccounts (KeyRing.settle k')).1
     = (KeyRing.queryParentAccounts (KeyRing.settle k)).1.
Proof.
  intros Htype. cbv zeta. unfold KeyRing.queryParentAccounts. run.
  destruct (deriveAccount_effect k path type alias)
    as [Hstore [Hpending|(store & parentId & record & name & args
                          & Hpending & _ & Hrecord)]].
  - by rewrite !settle_keyStore, Hstore, Hpending.
  - rewrite (settle_more k _ _ Hstore Hpending), Hstore, appends_derived.
    split; [reflexivity|].
    rewrite getRecords_app. unfold Store.getRecords at 2.
    cbn [filter list_filter]. rewrite decide_False.
    + by rewrite app_nil_r.
    + cbn [Store.field]. rewrite Hrecord. congruence.
Qed.

(** X17. Balances of a derived account are there only once its append
    has landed, and are asked for the owner, not for the address.
    After a successful [deriveAccount], when no record held or pending
    before has the new address, [queryBalances] of the new address
    throws "Account not found." on the keyring as the method leaves
    it, as the append is not awaited; once the pending writes have
    landed it returns what the chain query answers for the owner of
    the new record, the address itself for a transparent account and
    the viewing key for a shielded one, with every amount read by
    parseInt. *)
Theorem queryBalances_of_derived
    k path type alias password parent seed id address text owner :
  KeyRing.truthy (KeyRing._password k) = Some password ->
  Store.getRecord Key.id (VOption (KeyRing.activeAccountStore k))
    (KeyRing._keyStore k) = Some parent ->
  seedOf parent password = Some seed ->
  childFields type seed path (KeyStore.id parent) (KeyRing.chainId k)
  = Some (id, address, text, owner) ->
  (forall held, held ∈ KeyRing._keyStore (KeyRing.settle k) ->
     KeyStore.address held <> address) ->
  let k' := (KeyRing.deriveAccount path type alias k).2 in
  KeyRing.queryBalances address k'
  = (Throw (Error "Account not found."), k')
  /\ KeyRing.queryBalances address (KeyRing.settle k')
     = (Return (map (fun '(token, amount) => (token, parseInt amount))
                  (query_balance owner)), KeyRing.settle k')
  /\ (type <> AccountType.ShieldedKeys -> owner = address)
  /\ (type = AccountType.ShieldedKeys ->
      exists keys,
        zip32_derive seed (default 0%N (Bip44Path.index path)) = Some keys
        /\ owner = Zip32.viewingKey keys
        /\ address = Zip32.payment_address keys).
Proof.
  intros Hpw Hparent Hseed Hchild Hfresh.
  destruct (deriveAccount_by_address k path type alias password parent seed
              id address text owner Hpw Hparent Hseed Hchild Hfresh)
    as (Hnone & Hsome & _).
  cbv zeta. split; [|split; [|split]].
  - unfold KeyRing.queryBalances, KeyRing.bind, KeyRing.gets.
    by rewrite Hnone.
  - unfold KeyRing.queryBalances, KeyRing.bind, KeyRing.gets.
    by rewrite Hsome.
  - intros Htype. unfold childFields in Hchild.
    destruct type; [| |contradiction];
      destruct (KeyRing.deriveTransparentAccount _ _ _ _);
      simpl in Hchild; [|discriminate| |discriminate];
      by injection Hchild as _ <- _ <-.
  - intros ->. unfold childFields, KeyRing.deriveShieldedAccount in Hchild.
    destruct (zip32_derive _ _) as [keys|]; simpl in Hchild; [|discriminate].
    injection Hchild as _ <- _ <-. by exists keys.
Qed.

(** *** Switching the active account *)

(** X18. [setActiveAccountId] makes the id the active one and keeps the
    key store, the status and the cached password. The transaction
    builder is read back from the snapshot stored under the id, from
    the empty text when there is none, and left alone when there is no
    snapshot store. As the cached password stays, [deriveAccount] after
    a switch to a parent that does not open under it throws "Could not
    decrypt mnemonic from password!". *)
Theorem setActiveAccountId_keeps_password k parentId path type alias :
  let k' := (KeyRing.setActiveAccountId parentId k).2 in
  KeyRing.setActiveAccountId parentId k = (Return tt, k')
  /\ KeyRing.getActiveAccountId k' = (Return (Some parentId), k')
  /\ KeyRing._password k' = KeyRing._password k
  /\ KeyRing._status k' = KeyRing._status k
  /\ KeyRing._keyStore k' = KeyRing._keyStore k
  /\ KeyRing.sdk k'
     = match KeyRing.sdkStore k with
       | Some snapshots =>
           decode (KeyRing.sdk k) (default "" (snapshots !! parentId))
       | None => KeyRing.sdk k
       end
  /\ (forall password parent,
        KeyRing.truthy (KeyRing._password k) = Some password ->
        Store.getRecord Key.id (VString parentId) (KeyRing._keyStore k)
        = Some parent ->
        Crypto.decrypt parent password = None ->
        KeyRing.deriveAccount path type alias k'
        = (Throw (Error "Could not decrypt mnemonic from password!"), k')).
Proof.
  cbv zeta. unfold KeyRing.setActiveAccountId. run.
  destruct k as [ks pw st act [snapshots|] builder chain]; simpl;
    (repeat (split; [reflexivity|]));
    intros password parent Hpw Hparent Hdecrypt;
    unfold KeyRing.deriveAccount; run;
    rewrite Hpw; simpl; rewrite Hparent; simpl; by rewrite Hdecrypt.
Qed.

(** *** Identifiers *)

Lemma concat_cons_joined sep (x y : string) rest :
  String.concat sep ((x +:+ sep +:+ y) :: rest)
  = x +:+ sep +:+ String.concat sep (y :: rest).
Proof.
  destruct rest as [|z rest]; [reflexivity|].
  cbn [String.concat]. by rewrite !string_app_assoc.
Qed.

(** X19. [getId] joins the name and the arguments with "::", numbers
    in decimal, and takes the uuid of the joined text under the fixed
    namespace, for any number of arguments; without arguments it is
    the uuid of the name. *)
Theorem getId_joins name args :
  getId name args
  = UUID.v5 (String.concat "::" (name :: map show args))
            "9bfceade-37fe-11ed-acc0-a3da3461b38c".
Proof.
  unfold getId. cbv zeta. f_equal.
  revert name. induction args as [|arg args IH]; intros name.
  - reflexivity.
  - cbn [fold_left map]. rewrite IH. apply concat_cons_joined.
Qed.

(** X20. The id of a derived transparent account is the uuid of
    "account::parentId::account::change::index" under the fixed
    namespace, an absent index counting as 0. The derivation returns
    exactly when the chain is in the registry and the wallet derives
    the key. *)
Theorem deriveTransparentAccount_name seed path parentId chainId :
  DerivedAccountInfo.id
    <$> KeyRing.deriveTransparentAccount seed path parentId chainId
  = (fun _ =>
       UUID.v5 ("account::" +:+ parentId +:+ "::"
                  +:+ dec (Bip44Path.account path) +:+ "::"
                  +:+ dec (Bip44Path.change path) +:+ "::"
                  +:+ dec (default 0%N (Bip44Path.index path)))
               "9bfceade-37fe-11ed-acc0-a3da3461b38c")
      <$> (coin ← coinType chainId;
           hd_derive seed (KeyRing.derivationPath coin path)).
Proof.
  unfold KeyRing.deriveTransparentAccount.
  destruct (coinType chainId) as [coin|]; [|reflexivity].
  cbn [mbind option_bind].
  destruct (hd_derive _ _); [|reflexivity].
  cbn [fmap option_fmap option_map DerivedAccountInfo.id].
  f_equal. unfold getId. cbn [fold_left show]. f_equal.
  by rewrite !string_app_assoc.
Qed.

(** X21. A path without index and the same path with index 0 derive
    the same account: same id, same address and same secret, for
    transparent and for shielded accounts. *)
Theorem absent_index_is_index_zero seed account change parentId chainId :
  let absent := {| Bip44Path.account := account; Bip44Path.change := change;
                   Bip44Path.index := None |} in
  let zero := {| Bip44Path.account := account; Bip44Path.change := change;
                 Bip44Path.index := Some 0%N |} in
  KeyRing.deriveTransparentAccount seed absent parentId chainId
  = KeyRing.deriveTransparentAccount seed zero parentId chainId
  /\ KeyRing.deriveShieldedAccount seed absent parentId
     = KeyRing.deriveShieldedAccount seed zero parentId
  /\ forall type,
       childFields type seed absent parentId chainId
       = childFields type seed zero parentId chainId.
Proof. repeat split. Qed.

End More.

(** ** The signing methods *)

Section Signing.
Context `{TxCollaborators}.

Implicit Types (k : KeyRing.t).

(** X22. A keyring without cached password signs nothing: when no
    password is cached, or the empty one, as after [lock],
    [encodeInitAccount], [submitBond], [submitUnbond], [submitTransfer]
    and [submitIbcTransfer] throw "Not authenticated!" and leave the
    keyring and the transaction builder as they are; the callback of
    [submitTransfer] is not called. *)
Theorem locked_refuses_to_sign k address txMsg submit :
  KeyRing.truthy (KeyRing._password k) = None ->
  Transactions.encodeInitAccount address txMsg k
  = (Throw (Error "Not authenticated!"), k)
  /\ Transactions.submitBond txMsg k
     = (Throw (Error "Not authenticated!"), k)
  /\ Transactions.submitUnbond txMsg k
     = (Throw (Error "Not authenticated!"), k)
  /\ Transactions.submitTransfer txMsg submit k
     = (Throw (Error "Not authenticated!"), k)
  /\ Transactions.submitIbcTransfer txMsg k
     = (Throw (Error "Not authenticated!"), k).
Proof.
  intros Hpw.
  unfold Transactions.encodeInitAccount, Transactions.submitBond,
    Transactions.submitUnbond, Transactions.submitTransfer,
    Transactions.submitIbcTransfer, KeyRing.bind, KeyRing.gets.
  rewrite Hpw. repeat split.
Qed.

(** What [submitTransfer] does up to the record of the source. *)
Lemma submitTransfer_run txMsg submit k password source :
  KeyRing.truthy (KeyRing._password k) = Some password ->
  transfer_source txMsg = Some source ->
  Transactions.submitTransfer txMsg submit k
  = match Store.getRecord Key.address (VString source)
            (KeyRing._keyStore k) with
    | None => (Throw (Error "Account not found."), k)
    | Some account =>
        match Crypto.decrypt account password with
        | None => (Throw Foreign, k)
        | Some text =>
            match KeyStore.type account with
            | AccountType.ShieldedKeys =>
                match parsed_spendingKey text with
                | Some extendedSpendingKey =>
                    submit password extendedSpendingKey k
                | None => (Throw Foreign, k)
                end
            | _ => submit password None k
            end
        end
    end.
Proof.
  intros Hpw Hsource.
  unfold Transactions.submitTransfer, KeyRing.bind, KeyRing.gets,
    KeyRing.lift_opt.
  rewrite Hpw, Hsource. unfold KeyRing.ret, KeyRing.throw.
  destruct (Store.getRecord _ _ _) as [account|]; [|reflexivity].
  destruct (Crypto.decrypt _ _) as [text|]; [|reflexivity].
  destruct (KeyStore.type account); try reflexivity.
  by destruct (parsed_spendingKey text).
Qed.

(** X23. A transfer from a derived account finds it only once its
    append has landed, and then gets the right key. After a successful
    [deriveAccount], when no record held or pending before has the new
    address and blobs open under the password they were sealed with,
    [submitTransfer] of a message whose source is the new address
    throws "Account not found." on the keyring as [deriveAccount]
    leaves it, without calling the callback, as the append is not
    awaited. Once the pending writes have landed it calls the callback
    with the cached password and, for a transparent account, no
    spending key; for a shielded account, with the encoded spending
    key of the derived keys, provided JSON.parse reads it back from
    the stored text. *)
Theorem submitTransfer_of_derived
    k path type alias password parent seed id address text owner
    txMsg submit :
  opens_what_it_seals ->
  KeyRing.truthy (KeyRing._password k) = Some password ->
  Store.getRecord Key.id (VOption (KeyRing.activeAccountStore k))
    (KeyRing._keyStore k) = Some parent ->
  seedOf parent password = Some seed ->
  childFields type seed path (KeyStore.id parent) (KeyRing.chainId k)
  = Some (id, address, text, owner) ->
  (forall held, held ∈ KeyRing._keyStore (KeyRing.settle k) ->
     KeyStore.address held <> address) ->
  transfer_source txMsg = Some address ->
  let k' := (KeyRing.deriveAccount path type alias k).2 in
  Transactions.submitTransfer txMsg submit k'
  = (Throw (Error "Account not found."), k')
  /\ (type <> AccountType.ShieldedKeys ->
      Transactions.submitTransfer txMsg submit (KeyRing.settle k')
      = submit password None (KeyRing.settle k'))
  /\ (type = AccountType.ShieldedKeys ->
      exists keys,
        zip32_derive seed (default 0%N (Bip44Path.index path)) = Some keys
        /\ (parsed_spendingKey text = Some (Some (Zip32.spendingKey keys)) ->
            Transactions.submitTransfer txMsg submit (KeyRing.settle k')
            = submit password (Some (Zip32.spendingKey keys))
                (KeyRing.settle k'))).
Proof.
  intros Hopens Hpw Hparent Hseed Hchild Hfresh Hsource.
  destruct (deriveAccount_by_address k path type alias password parent seed
              id address text owner Hpw Hparent Hseed Hchild Hfresh)
    as (Hnone & Hsome & Hpw' & Hpw'').
  cbv zeta. split; [|split].
  - rewrite (submitTransfer_run _ _ _ password address);
      [by rewrite Hnone|by rewrite Hpw'|exact Hsource].
  - intros Htype.
    rewrite (submitTransfer_run _ _ _ password address);
      [|by rewrite Hpw''|exact Hsource].
    rewrite Hsome. unfold Crypto.decrypt.
    cbn [Crypto.encrypt KeyStore.crypto KeyStore.type CryptoArgs.password
         CryptoArgs.text CryptoArgs.type].
    rewrite Hopens. by destruct type.
  - intros ->. unfold childFields, KeyRing.deriveShieldedAccount in Hchild.
    destruct (zip32_derive _ _) as [keys|]; simpl in Hchild; [|discriminate].
    exists keys. split; [reflexivity|]. intros Hjson.
    rewrite (submitTransfer_run _ _ _ password address);
      [|by rewrite Hpw''|exact Hsource].
    rewrite Hsome. unfold Crypto.decrypt.
    cbn [Crypto.encrypt KeyStore.crypto KeyStore.type CryptoArgs.password
         CryptoArgs.text CryptoArgs.type].
    rewrite Hopens. by rewrite Hjson.
Qed.

End Signing.

(** ** Runs on the reference instance *)

Import Reference.

#[local] Existing Instance collaborators.

(** *** C1 *)

(** The claim fails: the second child of [halfSealed] does not open
    under the current password, [resetPassword] returns
    [KeyStoreError], and the blobs of the parent and of the first child
    have been rewritten under the new password all the same. *)
Lemma resetPassword_no_rollback :
  let run := KeyRing.resetPassword "hunter2" "correcthorse" "p" halfSealed in
  map KeyStore.crypto (KeyRing._keyStore halfSealed)
  = [("hunter2", "phrase"); ("hunter2", "key1"); ("other", "key2")]
  /\ Crypto.decrypt (nth_record 2 halfSealed) "hunter2" = None
  /\ run.1 = Return (Result.err ResetPasswordError.KeyStoreError)
  /\ map KeyStore.crypto (KeyRing._keyStore run.2)
     = [("correcthorse", "phrase"); ("correcthorse", "key1");
        ("other", "key2")]
  /\ map KeyStore.crypto (KeyRing._keyStore run.2)
     <> map KeyStore.crypto (KeyRing._keyStore halfSealed).
Proof. vm_compute. repeat split. discriminate. Qed.

Lemma resetPassword_failure_keeps_updates_witness :
  let run := KeyRing.resetPassword "hunter2" "correcthorse" "p" halfSealed in
  run.1 = Return (Result.err ResetPasswordError.KeyStoreError)
  /\ map KeyStore.crypto (KeyRing._keyStore run.2)
     = [("correcthorse", "phrase"); ("correcthorse", "key1");
        ("other", "key2")]
  /\ KeyRing._password run.2 = Some "hunter2".
Proof.
  destruct (resetPassword_failure_keeps_updates halfSealed "hunter2"
              "correcthorse" "p" (nth_record 0 halfSealed) "phrase"
              [nth_record 1 halfSealed] (nth_record 2 halfSealed) [])
    as [Hrun _].
  - vm_compute. reflexivity.
  - vm_compute. reflexivity.
  - vm_compute. reflexivity.
  - constructor; [|constructor]. exists "key1". vm_compute. reflexivity.
  - vm_compute. reflexivity.
  - cbv zeta. rewrite Hrun. vm_compute. repeat split.
Defined.

(** *** C2 *)

Lemma nth_record_held n (k : KeyRing.t) :
  (n <? length (KeyRing._keyStore k))%nat = true ->
  nth_record n k ∈ KeyRing._keyStore k.
Proof.
  intros Hlt%Nat.ltb_lt. apply list_elem_of_In. by apply nth_In.
Qed.

(** The claim fails: [unlocked1] is unlocked and holds the child of
    path 0/0/0; deriving it again returns the account with the same id
    and starts the append of a second record with this id, which the
    key store holds beside the first once the append has landed. *)
Lemma deriveAccount_twice_same_id :
  let run :=
    KeyRing.deriveAccount path000 AccountType.PrivateKey "b" unlocked1 in
  KeyRing._status unlocked1 = Unlocked
  /\ KeyRing._password unlocked1 = Some "hunter2"
  /\ map KeyStore.id (KeyRing._keyStore unlocked1)
     = ["cad6fa66-ec0c-53b0-9a4d-fee0c3485fc0";
        "da31cbc1-a65b-52b0-b9aa-6a338bf10206"]
  /\ DerivedAccount.id <$> (match run.1 with
                            | Return a => Some a
                            | Throw _ => None
                            end)
     = Some "da31cbc1-a65b-52b0-b9aa-6a338bf10206"
  /\ map KeyStore.id (appends (KeyRing.pending run.2))
     = ["da31cbc1-a65b-52b0-b9aa-6a338bf10206"]
  /\ map KeyStore.id (KeyRing._keyStore (KeyRing.settle run.2))
     = ["cad6fa66-ec0c-53b0-9a4d-fee0c3485fc0";
        "da31cbc1-a65b-52b0-b9aa-6a338bf10206";
        "da31cbc1-a65b-52b0-b9aa-6a338bf10206"].
Proof. vm_compute. repeat split. Qed.

Lemma deriveAccount_appends_duplicate_witness :
  exists account k',
    KeyRing.deriveAccount path000 AccountType.PrivateKey "b" unlocked1
    = (Return account, k')
    /\ DerivedAccount.id account = "da31cbc1-a65b-52b0-b9aa-6a338bf10206"
    /\ map KeyStore.id (KeyRing._keyStore k')
       = ["cad6fa66-ec0c-53b0-9a4d-fee0c3485fc0";
          "da31cbc1-a65b-52b0-b9aa-6a338bf10206"]
    /\ map KeyStore.id (KeyRing._keyStore (KeyRing.settle k'))
       = ["cad6fa66-ec0c-53b0-9a4d-fee0c3485fc0";
          "da31cbc1-a65b-52b0-b9aa-6a338bf10206";
          "da31cbc1-a65b-52b0-b9aa-6a338bf10206"].
Proof.
  edestruct (deriveAccount_appends_duplicate (H := collaborators)
               unlocked1 path000 AccountType.PrivateKey "b" "hunter2"
               (nth_record 0 unlocked1))
    as (k' & Hrun & Hstore & _ & Hsettled).
  - vm_compute. reflexivity.
  - vm_compute. reflexivity.
  - vm_compute. reflexivity.
  - vm_compute. reflexivity.
  - vm_compute. reflexivity.
  - apply (nth_record_held 1). vm_compute. reflexivity.
  - vm_compute. reflexivity.
  - eexists _, k'. split; [exact Hrun|]. split; [reflexivity|].
    split; [rewrite Hstore|rewrite Hsettled]; vm_compute; reflexivity.
Defined.

(** *** C3 *)

(** The claim fails: at path 1/2/3 under parent "p" the id is the
    uuid of "shielded-account::p::3", not that of the name with all
    three components. *)
Lemma deriveShieldedAccount_id_without_account_change :
  let path := {| Bip44Path.account := 1; Bip44Path.change := 2;
                 Bip44Path.index := Some 3%N |} in
  DerivedShieldedAccountInfo.id
    <$> KeyRing.deriveShieldedAccount "seed" path "p"
  = Some (UUID.v5 "shielded-account::p::3" UUID_NAMESPACE)
  /\ UUID.v5 "shielded-account::p::3" UUID_NAMESPACE
     <> UUID.v5 (shielded_name_with_full_path "p" 1 2 3) UUID_NAMESPACE.
Proof. vm_compute. split; [reflexivity|discriminate]. Qed.

(** *** C4 *)

(** The claim fails: for a path without index and coin type 877 the
    wallet is given m/44'/877'/0/0/0, with the index segment. *)
Lemma derivationPath_keeps_index_segment :
  Bip44Path.index path00 = None
  /\ KeyRing.derivationPath 877 path00 = "m/44'/877'/0/0/0"
  /\ derivationPath_with_optional_index 877 path00 = "m/44'/877'/0/0"
  /\ KeyRing.derivationPath 877 path00
     <> derivationPath_with_optional_index 877 path00
  /\ KeyRing.deriveTransparentAccount "seed" path00 "p" "namada-test"
     = (text ← hd_derive "seed" "m/44'/877'/0/0/0";
        Some {| DerivedAccountInfo.address := implicit text;
                DerivedAccountInfo.id :=
                  UUID.v5 "account::p::0::0::0" UUID_NAMESPACE;
                DerivedAccountInfo.text := text |}).
Proof. vm_compute. repeat split. discriminate. Qed.

(** *** C5 *)

(** The claim fails for [queryBalances]: no record has the address,
    and the call throws instead of returning the empty list. *)
Lemma queryBalances_absent_throws :
  Store.getRecord Key.address (VString "atest1nobody")
    (KeyRing._keyStore derived2) = None
  /\ (KeyRing.queryBalances "atest1nobody" derived2).1
     = Throw (Error "Account not found.")
  /\ (KeyRing.queryBalances "atest1nobody" derived2).1 <> Return [].
Proof. vm_compute. split; [reflexivity|]. split; [reflexivity|discriminate]. Qed.

Lemma queries_on_absent_target_witness :
  KeyRing.queryAccounts fresh = (Return [], fresh)
  /\ KeyRing.queryBalances "atest1nobody" fresh
     = (Throw (Error "Account not found."), fresh).
Proof.
  destruct (queries_on_absent_target fresh "atest1nobody")
    as [Haccounts Hbalances].
  split; [apply Haccounts|apply Hbalances]; vm_compute; reflexivity.
Defined.

(** *** C6 *)

Lemma resetPassword_bad_password_witness :
  (KeyRing.checkPassword "wrong" (Some parent) derived2).1 = Return false
  /\ KeyRing.resetPassword "wrong" "new" parent derived2
     = (Return (Result.err ResetPasswordError.BadPassword), derived2).
Proof.
  split; [vm_compute; reflexivity|].
  apply (resetPassword_bad_password derived2 "wrong" "new" parent).
  vm_compute. reflexivity.
Defined.

(** *** C7 *)

Lemma storeMnemonic_parent_id_witness :
  exists k' parentRecord,
    KeyRing.storeMnemonic phrase12 "hunter2" "main" fresh = (Return true, k')
    /\ KeyRing._keyStore k' = [parentRecord]
    /\ KeyStore.id parentRecord = "cad6fa66-ec0c-53b0-9a4d-fee0c3485fc0".
Proof.
  edestruct (storeMnemonic_parent_id (H := collaborators)
               fresh phrase12 "hunter2" "main")
    as (k' & parentRecord & Hrun & Hstore & Hid & _).
  - discriminate.
  - vm_compute. reflexivity.
  - vm_compute. reflexivity.
  - vm_compute. reflexivity.
  - exists k', parentRecord. split; [exact Hrun|].
    split; [exact Hstore|]. rewrite Hid. vm_compute. reflexivity.
Defined.

(** *** C8 *)

(** [derived2], on which the claim is run, comes from the empty key
    store by keyring calls and landings. *)
Lemma derived2_reachable : reachable derived2.
Proof.
  assert (E2 : derived2
               = KeyRing.settle
                   (KeyRing.deriveAccount path00 AccountType.ShieldedKeys
                      "z" derived1).2) by (vm_compute; reflexivity).
  assert (E1 : derived1
               = KeyRing.settle
                   (KeyRing.deriveAccount path000 AccountType.PrivateKey
                      "a" imported).2) by (vm_compute; reflexivity).
  assert (E0 : imported
               = (KeyRing.storeMnemonic phrase12 "hunter2" "main" fresh).2)
    by (vm_compute; reflexivity).
  rewrite E2. apply reachable_settle.
  eapply reachable_step; [|apply step_deriveAccount].
  rewrite E1. apply reachable_settle.
  eapply reachable_step; [|apply step_deriveAccount].
  rewrite E0. eapply reachable_step; [|apply step_storeMnemonic].
  by apply reachable_empty.
Qed.

Lemma deleteAccount_cascades_witness :
  exists k',
    KeyRing.deleteAccount parent "hunter2" derived2
    = (Return (Result.ok tt), k')
    /\ (forall record, record ∈ KeyRing._keyStore k' ->
          KeyStore.parentId record <> Some parent)
    /\ KeyRing._password k' = None.
Proof.
  destruct (deleteAccount_cascades derived2 parent "hunter2")
    as (k' & Hrun & Hgone & _ & Hpw & _).
  - unfold ids_nonempty. apply (bool_decide_unpack _). vm_compute. exact I.
  - vm_compute. reflexivity.
  - exists k'. split; [exact Hrun|]. split.
    + intros record Hin. apply (Hgone record Hin).
    + rewrite Hpw. vm_compute. reflexivity.
Defined.

(** *** C9 *)

(** The claim fails: the three words are rejected; with a password
    [storeMnemonic] returns false and does not throw, and with the
    empty password what it throws is about the password. *)
Lemma storeMnemonic_invalid_returns_false :
  let run := KeyRing.storeMnemonic ["not"; "a"; "phrase"] "hunter2" "main"
               imported in
  let blank := KeyRing.storeMnemonic ["not"; "a"; "phrase"] "" "main"
                 imported in
  from_phrase (String.concat " " ["not"; "a"; "phrase"]) = None
  /\ run.1 = Return false
  /\ ~ (exists e, run.1 = Throw e)
  /\ blank.1
     = Throw (Error "Password is not provided! Cannot store mnemonic").
Proof.
  vm_compute. split; [reflexivity|]. split; [reflexivity|].
  split; [|reflexivity]. intros [e He]. discriminate He.
Qed.

Lemma storeMnemonic_invalid_phrase_witness :
  KeyRing.storeMnemonic ["not"; "a"; "phrase"] "hunter2" "main" imported
  = (Return false, imported).
Proof.
  apply (storeMnemonic_invalid_phrase imported ["not"; "a"; "phrase"]
           "hunter2" "main").
  vm_compute. reflexivity.
Defined.

(** *** C10 *)

Lemma unlock_bad_password_witness :
  let locked := (KeyRing.lock derived2).2 in
  (KeyRing.checkPassword "wrong" None locked).1 = Return false
  /\ KeyRing.unlock "wrong" locked = (Return tt, locked).
Proof.
  split; [vm_compute; reflexivity|].
  apply (unlock_bad_password (KeyRing.lock derived2).2 "wrong").
  vm_compute. reflexivity.
Defined.

(** *** Further runs *)

#[local] Existing Instance txCollaborators.

Lemma reference_opens_what_it_seals : opens_what_it_seals.
Proof.
  intros password text. cbn. by rewrite decide_True.
Qed.

Lemma reference_opens_under_one_password : opens_under_one_password.
Proof.
  intros password other text [opened Hopened]. cbn in Hopened.
  by destruct (decide (password = other)).
Qed.

Lemma unlock_after_lock_witness :
  let k' := (KeyRing.unlock "hunter2" (KeyRing.lock derived2).2).2 in
  KeyRing._password k' = Some "hunter2" /\ KeyRing._status k' = Unlocked.
Proof.
  destruct (unlock_after_lock derived2 "hunter2") as (_ & Hpw & Hst & _).
  - vm_compute. reflexivity.
  - split; assumption.
Defined.

Lemma without_active_account_witness :
  length (KeyRing._keyStore orphaned) = 3%nat
  /\ KeyRing.unlock "hunter2" orphaned = (Return tt, orphaned)
  /\ KeyRing.queryAccounts orphaned = (Return [], orphaned).
Proof.
  destruct (without_active_account orphaned "hunter2" path000
              AccountType.PrivateKey "a") as (_ & Hunlock & Hquery & _).
  - vm_compute. reflexivity.
  - split; [vm_compute; reflexivity|]. split; assumption.
Defined.

Lemma deleteAccount_bad_password_witness :
  KeyRing.deleteAccount parent "wrong" derived2
  = (Return (Result.err DeleteAccountError.BadPassword), derived2).
Proof.
  apply (deleteAccount_bad_password derived2 parent "wrong").
  vm_compute. reflexivity.
Defined.

Lemma deleteAccount_active_then_locked_witness :
  let k' := (KeyRing.deleteAccount parent "hunter2" derived2).2 in
  KeyRing.queryAccounts k' = (Return [], k')
  /\ KeyRing.isLocked k' = (Return true, k').
Proof.
  destruct (deleteAccount_active_then_locked derived2 parent "hunter2"
              path000 AccountType.PrivateKey "a")
    as (_ & Hlocked & _ & Hquery & _).
  - unfold ids_nonempty. apply (bool_decide_unpack _). vm_compute. exact I.
  - vm_compute. reflexivity.
  - vm_compute. reflexivity.
  - split; assumption.
Defined.

Lemma deriveAccount_guards_witness :
  KeyRing.deriveAccount path000 AccountType.PrivateKey "a" locked2
  = (Throw (Error "No password is set!"), locked2)
  /\ KeyRing.deriveAccount path000 AccountType.PrivateKey "a"
       (KeyRing.with_password (Some "hunter2") orphaned)
     = (Throw (Error "Mnemonic is not set!"),
        KeyRing.with_password (Some "hunter2") orphaned).
Proof.
  split.
  - destruct (deriveAccount_guards locked2 path000 AccountType.PrivateKey "a")
      as (Hnone & _ & _).
    apply Hnone. left. vm_compute. reflexivity.
  - destruct (deriveAccount_guards
                (KeyRing.with_password (Some "hunter2") orphaned)
                path000 AccountType.PrivateKey "a") as (_ & _ & Hparent).
    apply Hparent; [exists "hunter2"|]; vm_compute; reflexivity.
Defined.

Lemma deriveAccount_failure_witness :
  KeyRing.deriveAccount path000 AccountType.PrivateKey "a" elsewhere
  = (Throw (Error "Could not decrypt mnemonic from password!"), elsewhere).
Proof.
  apply (deriveAccount_failure elsewhere path000 AccountType.PrivateKey "a"
           "hunter2" (nth_record 0 elsewhere)).
  - vm_compute. reflexivity.
  - vm_compute. reflexivity.
  - vm_compute. reflexivity.
Defined.


Lemma derived2_children_open :
  Forall (fun account => is_Some (Crypto.decrypt account "hunter2"))
    (Store.getRecords Key.parentId (VString parent)
       (KeyRing._keyStore derived2)).
Proof. apply (bool_decide_unpack _). vm_compute. exact I. Qed.

Lemma resetPassword_succeeds_witness :
  let k' :=
    (KeyRing.resetPassword "hunter2" "correcthorse" parent derived2).2 in
  KeyRing.resetPassword "hunter2" "correcthorse" parent derived2
  = (Return (Result.ok tt), k')
  /\ KeyRing._password k' = Some "correcthorse".
Proof.
  destruct (resetPassword_succeeds derived2 "hunter2" "correcthorse" parent)
    as (Hrun & Hpw & _).
  - vm_compute. reflexivity.
  - exact derived2_children_open.
  - split; [exact Hrun|]. rewrite Hpw. vm_compute. reflexivity.
Defined.

Lemma resetPassword_keeps_secrets_witness :
  let k' :=
    (KeyRing.resetPassword "hunter2" "correcthorse" parent derived2).2 in
  exists record',
    KeyRing._keyStore k' !! 1%nat = Some record'
    /\ Crypto.decrypt record' "correcthorse"
       = Crypto.decrypt (nth_record 1 derived2) "hunter2".
Proof.
  destruct (resetPassword_keeps_secrets derived2 "hunter2" "correcthorse"
              parent reference_opens_what_it_seals)
    with (i := 1%nat) (record := nth_record 1 derived2)
    as (record' & Hlookup & _ & _ & Hsecret & _).
  - apply (bool_decide_unpack _). vm_compute. exact I.
  - vm_compute. reflexivity.
  - exact derived2_children_open.
  - vm_compute. reflexivity.
  - exists record'. split; [exact Hlookup|].
    apply Hsecret. right. vm_compute. reflexivity.
Defined.

Lemma resetPassword_changes_the_password_witness :
  let k' :=
    (KeyRing.resetPassword "hunter2" "correcthorse" parent derived2).2 in
  KeyRing.checkPassword "correcthorse" (Some parent) k' = (Return true, k')
  /\ KeyRing.checkPassword "hunter2" (Some parent) k' = (Return false, k').
Proof.
  destruct (resetPassword_changes_the_password derived2 "hunter2"
              "correcthorse" parent reference_opens_what_it_seals)
    as (Hnew & _ & Hold).
  - vm_compute. reflexivity.
  - exact derived2_children_open.
  - split; [exact Hnew|].
    apply Hold; [exact reference_opens_under_one_password|discriminate].
Defined.

Lemma resetPassword_to_empty_password_witness :
  let k' := (KeyRing.resetPassword "hunter2" "" parent derived2).2 in
  KeyRing.isLocked k' = (Return false, k')
  /\ KeyRing.deriveAccount path000 AccountType.PrivateKey "a" k'
     = (Throw (Error "No password is set!"), k').
Proof.
  destruct (resetPassword_to_empty_password derived2 "hunter2" parent
              path000 AccountType.PrivateKey "a")
    as (_ & _ & Hlocked & Hderive).
  - vm_compute. reflexivity.
  - vm_compute. reflexivity.
  - exact derived2_children_open.
  - split; assumption.
Defined.

Lemma storeMnemonic_sets_up_witness :
  let k' := (KeyRing.storeMnemonic phrase12 "hunter2" "main" fresh).2 in
  KeyRing.isLocked k' = (Return false, k')
  /\ KeyRing._status k' = Empty.
Proof.
  edestruct (storeMnemonic_sets_up (H := collaborators)
               fresh phrase12 "hunter2" "main")
    as (Hlocked & _ & _ & Hstatus & _).
  - discriminate.
  - vm_compute. reflexivity.
  - vm_compute. reflexivity.
  - vm_compute. reflexivity.
  - split; [exact Hlocked|exact Hstatus].
Defined.

Lemma storeMnemonic_then_queryAccounts_witness :
  let k' := (KeyRing.storeMnemonic phrase12 "hunter2" "main" fresh).2 in
  map DerivedAccount.id
    (match (KeyRing.queryAccounts k').1 with
     | Return accounts => accounts
     | Throw _ => []
     end)
  = ["cad6fa66-ec0c-53b0-9a4d-fee0c3485fc0"].
Proof.
  cbv zeta.
  erewrite (storeMnemonic_then_queryAccounts (H := collaborators)
              fresh phrase12 "hunter2" "main").
  - vm_compute. reflexivity.
  - discriminate.
  - vm_compute. reflexivity.
  - vm_compute. reflexivity.
  - vm_compute. reflexivity.
  - intros record Hin. by apply elem_of_nil in Hin.
Defined.

Lemma storeMnemonic_then_unlock_witness :
  let k' := (KeyRing.storeMnemonic phrase12 "hunter2" "main" fresh).2 in
  let locked := (KeyRing.lock k').2 in
  KeyRing._status (KeyRing.unlock "hunter2" locked).2 = Unlocked
  /\ KeyRing.unlock "wrong" locked = (Return tt, locked).
Proof.
  edestruct (storeMnemonic_then_unlock (H := collaborators)
               fresh phrase12 "hunter2" "main")
    as (_ & Hstatus & _ & Hother).
  - exact reference_opens_what_it_seals.
  - discriminate.
  - vm_compute. reflexivity.
  - vm_compute. reflexivity.
  - vm_compute. reflexivity.
  - intros record Hin. by apply elem_of_nil in Hin.
  - split; [exact Hstatus|].
    apply Hother; [exact reference_opens_under_one_password|discriminate].
Defined.

Lemma setActiveAccountId_keeps_password_witness :
  let k' := (KeyRing.setActiveAccountId parent
               (KeyRing.with_password (Some "other") orphaned)).2 in
  KeyRing.getActiveAccountId k' = (Return (Some parent), k')
  /\ KeyRing.deriveAccount path000 AccountType.PrivateKey "a" k'
     = (Throw (Error "Could not decrypt mnemonic from password!"), k').
Proof.
  destruct (setActiveAccountId_keeps_password
              (KeyRing.with_password (Some "other") orphaned) parent
              path000 AccountType.PrivateKey "a")
    as (_ & Hactive & _ & _ & _ & _ & Hderive).
  split; [exact Hactive|].
  apply (Hderive "other" (nth_record 0 orphaned)); vm_compute; reflexivity.
Defined.

Lemma deriveAccount_keeps_parents_witness :
  let k' :=
    (KeyRing.deriveAccount path00 AccountType.ShieldedKeys "z" unlocked1).2 in
  (KeyRing.queryParentAccounts k').1 = (KeyRing.queryParentAccounts unlocked1).1
  /\ (KeyRing.queryParentAccounts (KeyRing.settle k')).1
     = (KeyRing.queryParentAccounts (KeyRing.settle unlocked1)).1.
Proof.
  apply (deriveAccount_keeps_parents unlocked1 path00
           AccountType.ShieldedKeys "z").
  discriminate.
Defined.

Lemma unlocked1_addresses_differ_from address :
  bool_decide
    (Forall (fun held => KeyStore.address held <> address)
       (KeyRing._keyStore (KeyRing.settle unlocked1))) = true ->
  forall held, held ∈ KeyRing._keyStore (KeyRing.settle unlocked1) ->
    KeyStore.address held <> address.
Proof.
  intros Hall%bool_decide_eq_true_1. by apply Forall_forall.
Qed.

Lemma queryBalances_of_derived_witness :
  let k' :=
    (KeyRing.deriveAccount path00 AccountType.ShieldedKeys "z" unlocked1).2 in
  KeyRing.queryBalances "patest0" k'
  = (Throw (Error "Account not found."), k')
  /\ KeyRing.queryBalances "patest0" (KeyRing.settle k')
     = (Return (map (fun '(token, amount) => (token, parseInt amount))
                  (query_balance "xfvktest0")), KeyRing.settle k').
Proof.
  edestruct (queryBalances_of_derived (H := collaborators)
               unlocked1 path00 AccountType.ShieldedKeys "z" "hunter2"
               (nth_record 0 unlocked1))
    as (Hearly & Hbalances & _).
  - vm_compute. reflexivity.
  - vm_compute. reflexivity.
  - vm_compute. reflexivity.
  - vm_compute. reflexivity.
  - apply unlocked1_addresses_differ_from. vm_compute. reflexivity.
  - split; [exact Hearly|exact Hbalances].
Defined.

Lemma locked_refuses_to_sign_witness :
  Transactions.submitBond [1%N] locked2
  = (Throw (Error "Not authenticated!"), locked2)
  /\ Transactions.submitTransfer (transfer_from "patest0")
       (fun _ _ => KeyRing.ret tt) locked2
     = (Throw (Error "Not authenticated!"), locked2).
Proof.
  destruct (locked_refuses_to_sign locked2 "patest0"
              (transfer_from "patest0") (fun _ _ => KeyRing.ret tt))
    as (_ & Hbond & _ & Htransfer & _).
  - vm_compute. reflexivity.
  - destruct (locked_refuses_to_sign locked2 "patest0" [1%N]
                (fun _ _ => KeyRing.ret tt)) as (_ & Hbond' & _).
    + vm_compute. reflexivity.
    + split; [exact Hbond'|exact Htransfer].
Defined.

Lemma submitTransfer_of_derived_witness :
  let k' :=
    (KeyRing.deriveAccount path00 AccountType.ShieldedKeys "z" unlocked1).2 in
  Transactions.submitTransfer (transfer_from "patest0") report k'
  = (Throw (Error "Account not found."), k')
  /\ Transactions.submitTransfer (transfer_from "patest0") report
       (KeyRing.settle k')
     = (Throw (Error "hunter2/xsktest0"), KeyRing.settle k').
Proof.
  cbv zeta.
  edestruct (submitTransfer_of_derived (H := collaborators)
               (H0 := txCollaborators)
               unlocked1 path00 AccountType.ShieldedKeys "z" "hunter2"
               (nth_record 0 unlocked1))
    with (txMsg := transfer_from "patest0") (submit := report)
    as (Hearly & _ & Hshielded).
  - exact reference_opens_what_it_seals.
  - vm_compute. reflexivity.
  - vm_compute. reflexivity.
  - vm_compute. reflexivity.
  - vm_compute. reflexivity.
  - apply unlocked1_addresses_differ_from. vm_compute. reflexivity.
  - vm_compute. reflexivity.
  - destruct (Hshielded eq_refl) as (keys & Hkeys & Hsubmit).
    vm_compute in Hkeys. injection Hkeys as <-.
    split; [exact Hearly|].
    rewrite Hsubmit; [reflexivity|]. vm_compute. reflexivity.
Defined.
